(** * Hako Go host: handles, linear memory, allocation bridge, callback
      router and the Runtime / Realm / Value facade.

    A shallow embedding of the Go host of hako (QuickJS compiled to
    WebAssembly, run under wazero) and the properties of its lifetime and
    marshalling discipline.

    Conventions.
    - The handle types (RuntimePtr, ContextPtr, ValuePtr, ModuleDefPtr,
      ClassID, MemoryPtr) are all [int32] newtypes in the source; they are
      [Z] here, and a conversion between two of them is the identity.
      Conversions that change the value ([uint32(offset)], [int32(len)])
      are written out with their wrap-around.
    - Linear memory is the byte buffer of wazero's [api.Memory]; a Go
      [string] is a [string], and [[]byte(s)] / [string(b)] are the
      Standard Library's conversions between strings and byte lists.
    - The engine (the WebAssembly module reached through [Registry]) is
      opaque: an arbitrary state type with an arbitrary transition
      function on entry-point calls. The properties of the host are
      proved for all engines; the runs at the end are evaluations against
      one small engine. *)

From Stdlib Require Import ZArith List Bool Lia.
From Stdlib Require Import Strings.Byte Strings.Ascii Strings.String.
From stdpp Require Import base tactics option list gmap.

Local Open Scope Z_scope.

(** ** Integer conversions *)

(** Go's [uint32(x)]: the value modulo 2^32. *)
Definition uint32 (z : Z) : Z := z mod 2 ^ 32.

(** Go's [int32(x)]: two's complement wrap-around into [-2^31, 2^31). *)
Definition int32 (z : Z) : Z := (z + 2 ^ 31) mod 2 ^ 32 - 2 ^ 31.

(** [len] of a byte slice or of a string, as a Go [int]. *)
Definition len {A} (l : list A) : Z := Z.of_nat (length l).

(** ** Linear Memory Accessor (type [Memory]) *)

Module Memory.

(** The wrapped [api.Memory] of wazero is its byte buffer. The four
    operations of it that the host uses follow wazero's contract: an
    access is in range when [offset + byteCount <= len(buffer)], computed
    without overflow; a read out of range returns [ok = false], a write
    out of range returns [false] and leaves the buffer as it is. *)
Definition t := list byte.

Definition Size (m : t) : Z := uint32 (len m).

Definition hasSize (m : t) (offset byteCount : Z) : bool :=
  offset + byteCount <=? len m.

Definition Read (m : t) (offset byteCount : Z) : option (list byte) :=
  if hasSize m offset byteCount
  then Some (take (Z.to_nat byteCount) (drop (Z.to_nat offset) m))
  else None.

Definition Write (m : t) (offset : Z) (data : list byte) : t * bool :=
  if hasSize m offset (len data)
  then (take (Z.to_nat offset) m ++ data
          ++ drop (Z.to_nat offset + length data) m, true)
  else (m, false).

Definition byte_of_Z (z : Z) : byte :=
  byte_of_ascii (ascii_of_N (Z.to_N (z mod 256))).

Definition Z_of_byte (b : byte) : Z := Z.of_N (Byte.to_N b).

(** The four bytes of a 32-bit value, least significant first. *)
Definition le32 (v : Z) : list byte :=
  [byte_of_Z v; byte_of_Z (v / 2 ^ 8); byte_of_Z (v / 2 ^ 16);
   byte_of_Z (v / 2 ^ 24)].

Definition of_le32 (bs : list byte) : Z :=
  fold_right (fun b acc => Z_of_byte b + 256 * acc) 0 bs.

Definition WriteUint32Le (m : t) (offset v : Z) : t * bool :=
  Write m offset (le32 v).

Definition ReadUint32Le (m : t) (offset : Z) : Z * bool :=
  match Read m offset 4 with
  | Some bs => (of_le32 bs, true)
  | None => (0, false)
  end.

(** [ReadBytes]: [m.mem.Read(uint32(offset), n)]. *)
Definition ReadBytes (m : t) (offset n : Z) : option (list byte) :=
  Read m (uint32 offset) n.

(** [WriteBytes]: [m.mem.Write(uint32(offset), data)]. *)
Definition WriteBytes (m : t) (offset : Z) (data : list byte) : t * bool :=
  Write m (uint32 offset) data.

Definition ReadUint32 (m : t) (offset : Z) : Z * bool :=
  ReadUint32Le m (uint32 offset).

Definition WriteUint32 (m : t) (offset val : Z) : t * bool :=
  WriteUint32Le m (uint32 offset) val.

(** The loop [for i, b := range data { if b == 0 { return data[:i] } }]
    followed by [return data]: the bytes before the first zero byte, or
    all of [data] when it has none. *)
Fixpoint until_zero (data : list byte) : list byte :=
  match data with
  | [] => []
  | b :: rest => if Byte.eqb b x00 then [] else b :: until_zero rest
  end.

(** [ReadString]: the read covers [Size() - uint32(offset)] bytes, a
    uint32 subtraction; only a failed read reports [false]. *)
Definition ReadString (m : t) (offset : Z) : string * bool :=
  match Read m (uint32 offset) (uint32 (Size m - uint32 offset)) with
  | None => (EmptyString, false)
  | Some data => (string_of_list_byte (until_zero data), true)
  end.

(** [WriteString]: the bytes of [s] followed by a terminator. *)
Definition WriteString (m : t) (offset : Z) (s : string) : t * bool :=
  Write m (uint32 offset) (list_byte_of_string s ++ [x00]).

End Memory.

(** An offset is in bounds when, as a uint32, it does not pass the end of
    the buffer. *)
Definition in_bounds (m : Memory.t) (offset : Z) : Prop :=
  uint32 offset <= Memory.Size m.

(** The bytes from [offset] to the end of the buffer. *)
Definition suffix (m : Memory.t) (offset : Z) : list byte :=
  drop (Z.to_nat (uint32 offset)) m.

(** ** The engine boundary *)

(** The entry points of the engine that the host calls through [Registry]
    (the context argument [ctx context.Context] of each is the one stored
    in the Runtime and is left out). *)
Module Registry.

Inductive Call : Type :=
| NewContext (rt intrinsics : Z)
| FreeContext (ctx : Z)
| FreeRuntime (rt : Z)
| RuntimeSetMemoryLimit (rt bytes : Z)
| RunGC (rt : Z)
| IsJobPending (rt : Z)
| ExecutePendingJob (rt maxJobs out : Z)
| Eval (ctx codePtr codeLen filenamePtr detectModule flags : Z)
| GetLastError (ctx maybeException : Z)
| GetUndefined
| GetNull
| GetGlobalObject (ctx : Z)
| NewObject (ctx : Z)
| NewArray (ctx : Z)
| NewString (ctx strPtr : Z)
| Malloc (ctx size : Z)
| Free (ctx ptr : Z)
| ToCString (ctx val : Z)
| FreeCString (ctx ptr : Z)
| FreeValuePointer (ctx val : Z)
| DupValuePointer (ctx val : Z).

End Registry.

(** The engine itself is out of reach of the host: a state, and what an
    entry point answers (an int32; ignored by the host for the entry
    points without result) and does to the state and to linear memory.
    Callbacks the engine makes while it runs act on linear memory only
    (see [load_module] and [normalize_module] below) and are part of that
    effect. [close_error] is what closing the wazero runtime returns. *)
Class Engine : Type := {
  engine_state : Type;
  entry : Registry.Call -> engine_state -> Memory.t ->
          Z * engine_state * Memory.t;
  close_error : engine_state -> option string;
}.

(** What crosses the boundary, in order: entry points invoked with their
    answers, and the host's own accesses to linear memory. *)
Inductive Event : Type :=
| ECall (c : Registry.Call) (r : Z)
| EWrite (offset : Z) (data : list byte) (ok : bool)
| EReadString (offset : Z) (s : string) (ok : bool).

(** The entry points invoked in a trace, without their answers. *)
Definition engine_calls (t : list Event) : list Registry.Call :=
  flat_map (fun e => match e with ECall c _ => [c] | _ => [] end) t.

(** ** The host's objects *)

(** A [*Realm] is an address in the heap of realms; the [Runtime] field of
    a Realm is the one Runtime of the world. *)
Module Realm.
Record t : Type := { Pointer : Z; disposed : bool }.
Definition nil : t := {| Pointer := 0; disposed := false |}.
End Realm.

Module Value.
Record t : Type := { realm : option nat; ptr : Z; borrowed : bool }.
(** The zero value [Value{}]. *)
Definition zero : t := {| realm := None; ptr := 0; borrowed := false |}.
End Value.

Module EvalOptions.
Record t : Type := { Filename : string; DetectModule : bool }.
End EvalOptions.

(** [contexts] maps a context handle to its [*Realm], [runtimes] a runtime
    handle to the Runtime. The lock [mu] serialises the operations, which
    are atomic here. *)
Module CallbackManager.
Record t : Type := {
  contexts : gmap Z nat;
  runtimes : gmap Z unit;
}.
End CallbackManager.

(** [realms = nil] after Close is the empty map: ranging over it and
    deleting from it do nothing, and the only insertion is behind the
    [disposed] check. [rt.wazero] is set by [New] and never reset, so the
    test [rt.wazero != nil] in Close holds; [wazero_closed] records that
    [rt.wazero.Close] has run. *)
Module Runtime.
Record t : Type := {
  Pointer : Z;
  realms : gmap Z nat;
  disposed : bool;
  wazero_closed : bool;
}.
End Runtime.

(** [NewCallbackManager]. *)
Definition NewCallbackManager : CallbackManager.t :=
  {| CallbackManager.contexts := ∅; CallbackManager.runtimes := ∅ |}.

Definition RegisterContext (ptr : Z) (realm : nat) (cm : CallbackManager.t)
  : CallbackManager.t :=
  {| CallbackManager.contexts := <[ptr := realm]> (CallbackManager.contexts cm);
     CallbackManager.runtimes := CallbackManager.runtimes cm |}.

Definition UnregisterContext (ptr : Z) (cm : CallbackManager.t)
  : CallbackManager.t :=
  {| CallbackManager.contexts := delete ptr (CallbackManager.contexts cm);
     CallbackManager.runtimes := CallbackManager.runtimes cm |}.

Definition RegisterRuntime (ptr : Z) (cm : CallbackManager.t)
  : CallbackManager.t :=
  {| CallbackManager.contexts := CallbackManager.contexts cm;
     CallbackManager.runtimes := <[ptr := tt]> (CallbackManager.runtimes cm) |}.

Definition UnregisterRuntime (ptr : Z) (cm : CallbackManager.t)
  : CallbackManager.t :=
  {| CallbackManager.contexts := CallbackManager.contexts cm;
     CallbackManager.runtimes := delete ptr (CallbackManager.runtimes cm) |}.

(** ** Callback handlers and their bindings *)

Definition ModuleSourceString : Z := 0.
Definition ModuleSourcePrecompiled : Z := 1.
Definition ModuleSourceError : Z := 2.



Definition handleLoadModule (cm : CallbackManager.t) (rt ctx : Z)
  (moduleName : string) (opaque : Z) : Z * Z * Z :=
  (ModuleSourceError, 0, 0).



Definition handleClassConstructor (cm : CallbackManager.t)
  (ctx newTarget classID : Z) : Z := 0.




Definition load_module (cm : CallbackManager.t) (mem : Memory.t)
  (rt jsCtx moduleNamePtr opaque outPtr : Z) : Memory.t * Z :=
  let moduleName := fst (Memory.ReadString mem moduleNamePtr) in
  let '(srcType, srcPtr, srcLen) :=
    handleLoadModule cm rt jsCtx moduleName opaque in
  let mem1 := fst (Memory.WriteUint32 mem outPtr (uint32 srcType)) in
  let mem2 := fst (Memory.WriteUint32 mem1 (int32 (outPtr + 4)) (uint32 srcPtr)) in
  let mem3 := fst (Memory.WriteUint32 mem2 (int32 (outPtr + 8)) (uint32 srcLen)) in
  (mem3, int32 srcType).


Definition class_constructor (cm : CallbackManager.t) (mem : Memory.t)
  (jsCtx newTarget argc argv classID : Z) : Memory.t * Z :=
  (mem, int32 (handleClassConstructor cm jsCtx newTarget classID)).

(** ** The world: engine, linear memory, and the host's heap *)

Section Host.

Context `{Eng : Engine}.

Record World : Type := {
  engine : engine_state;
  memory : Memory.t;
  trace : list Event;
  heap : list Realm.t;
  runtime : Runtime.t;
  callbacks : CallbackManager.t;
}.

(** Host code: a state transformer over the world. *)
Definition M (A : Type) : Type := World -> A * World.

#[local] Instance M_ret : MRet M := fun A a w => (a, w).
#[local] Instance M_bind : MBind M :=
  fun A B f m w => let '(a, w') := m w in f a w'.

Definition gets {A} (f : World -> A) : M A := fun w => (f w, w).

(** A call through [Registry] into the engine. *)
Definition invoke (c : Registry.Call) : M Z := fun w =>
  let '(r, e, m) := entry c (engine w) (memory w) in
  (r, {| engine := e; memory := m; trace := trace w ++ [ECall c r];
         heap := heap w; runtime := runtime w; callbacks := callbacks w |}).

(** The same for an entry point without result: nothing is answered,
    and 0 stands in the trace. *)
Definition invoke_void (c : Registry.Call) : M unit := fun w =>
  let '(_, e, m) := entry c (engine w) (memory w) in
  (tt, {| engine := e; memory := m; trace := trace w ++ [ECall c 0];
          heap := heap w; runtime := runtime w; callbacks := callbacks w |}).

Definition set_heap (h : list Realm.t) : M unit := fun w =>
  (tt, {| engine := engine w; memory := memory w; trace := trace w;
          heap := h; runtime := runtime w; callbacks := callbacks w |}).

Definition set_runtime (rt : Runtime.t) : M unit := fun w =>
  (tt, {| engine := engine w; memory := memory w; trace := trace w;
          heap := heap w; runtime := rt; callbacks := callbacks w |}).

Definition set_callbacks (cm : CallbackManager.t) : M unit := fun w =>
  (tt, {| engine := engine w; memory := memory w; trace := trace w;
          heap := heap w; runtime := runtime w; callbacks := cm |}).

(** [*r] for a [*Realm]: addresses held by the host are those of
    realms it created. *)
Definition deref (r : nat) : M Realm.t :=
  gets (fun w => default Realm.nil (heap w !! r)).

Definition store (r : nat) (realm : Realm.t) : M unit :=
  h ← gets heap; set_heap (<[r := realm]> h).

(** [&Realm{...}]: a fresh address. *)
Definition new_realm (realm : Realm.t) : M nat :=
  h ← gets heap; _ ← set_heap (h ++ [realm]); mret (length h).

(** *** Memory, as the host reaches it *)

Definition Memory_WriteBytes (offset : Z) (data : list byte) : M bool :=
  fun w =>
    let '(m, ok) := Memory.WriteBytes (memory w) offset data in
    (ok, {| engine := engine w; memory := m;
            trace := trace w ++ [EWrite offset data ok];
            heap := heap w; runtime := runtime w;
            callbacks := callbacks w |}).

Definition Memory_ReadString (offset : Z) : M (string * bool) := fun w =>
  let '(s, ok) := Memory.ReadString (memory w) offset in
  ((s, ok), {| engine := engine w; memory := memory w;
               trace := trace w ++ [EReadString offset s ok];
               heap := heap w; runtime := runtime w;
               callbacks := callbacks w |}).

(** *** Allocation Bridge (type [MemoryManager]) *)

Definition AllocateMemory (ctxPtr size : Z) : M Z :=
  invoke (Registry.Malloc ctxPtr size).

Definition FreeMemory (ctxPtr ptr : Z) : M unit :=
  if ptr =? 0 then mret tt
  else invoke_void (Registry.Free ctxPtr ptr).

Definition AllocateString (ctxPtr : Z) (s : string) : M (Z * Z) :=
  let data := list_byte_of_string s in
  let size := int32 (len data + 1) in
  ptr ← AllocateMemory ctxPtr size;
  if ptr =? 0 then mret (0, 0)
  else _ ← Memory_WriteBytes ptr (data ++ [x00]); mret (ptr, len data).

Definition ReadNullTerminatedString (ptr : Z) : M string :=
  if ptr =? 0 then mret EmptyString
  else '(s, _) ← Memory_ReadString ptr; mret s.

Definition FreeCString (ctxPtr ptr : Z) : M unit :=
  if ptr =? 0 then mret tt
  else invoke_void (Registry.FreeCString ctxPtr ptr).

Definition FreeValuePointer (ctxPtr ptr : Z) : M unit :=
  if ptr =? 0 then mret tt
  else invoke_void (Registry.FreeValuePointer ctxPtr ptr).

Definition DupValuePointer (ctxPtr ptr : Z) : M Z :=
  invoke (Registry.DupValuePointer ctxPtr ptr).

(** *** Value *)

Definition Value_String (v : Value.t) : M string :=
  match Value.realm v with
  | None => mret EmptyString
  | Some r =>
      realm ← deref r;
      strPtr ← invoke (Registry.ToCString (Realm.Pointer realm) (Value.ptr v));
      if strPtr =? 0 then mret EmptyString
      else
        s ← ReadNullTerminatedString strPtr;
        realm ← deref r;
        _ ← FreeCString (Realm.Pointer realm) strPtr;
        mret s
  end.

Definition Value_Dup (v : Value.t) : M Value.t :=
  match Value.realm v with
  | None => mret Value.zero
  | Some r =>
      realm ← deref r;
      ptr ← DupValuePointer (Realm.Pointer realm) (Value.ptr v);
      mret {| Value.realm := Some r; Value.ptr := ptr;
              Value.borrowed := false |}
  end.

(** [Free] has a value receiver and writes nothing back to [v]. *)
Definition Value_Free (v : Value.t) : M unit :=
  match Value.realm v with
  | None => mret tt
  | Some r =>
      if (Value.ptr v =? 0) || Value.borrowed v then mret tt
      else
        realm ← deref r;
        FreeValuePointer (Realm.Pointer realm) (Value.ptr v)
  end.

(** [n] calls of [v.Free()] in a row. *)
Fixpoint Value_Free_times (n : nat) (v : Value.t) : M unit :=
  match n with
  | O => mret tt
  | S k => _ ← Value_Free v; Value_Free_times k v
  end.

(** *** Realm *)

Definition Realm_Undefined (r : nat) : M Value.t :=
  ptr ← invoke Registry.GetUndefined;
  mret {| Value.realm := Some r; Value.ptr := ptr; Value.borrowed := true |}.

Definition Realm_Null (r : nat) : M Value.t :=
  ptr ← invoke Registry.GetNull;
  mret {| Value.realm := Some r; Value.ptr := ptr; Value.borrowed := true |}.

Definition Realm_GetGlobalObject (r : nat) : M Value.t :=
  realm ← deref r;
  ptr ← invoke (Registry.GetGlobalObject (Realm.Pointer realm));
  mret {| Value.realm := Some r; Value.ptr := ptr; Value.borrowed := false |}.

Definition Realm_NewObject (r : nat) : M Value.t :=
  realm ← deref r;
  ptr ← invoke (Registry.NewObject (Realm.Pointer realm));
  mret {| Value.realm := Some r; Value.ptr := ptr; Value.borrowed := false |}.

Definition Realm_NewArray (r : nat) : M Value.t :=
  realm ← deref r;
  ptr ← invoke (Registry.NewArray (Realm.Pointer realm));
  mret {| Value.realm := Some r; Value.ptr := ptr; Value.borrowed := false |}.

(** [NewString]: the result of [AllocateString] is not tested, and the
    deferred [FreeMemory] runs after the engine's [NewString]. *)
Definition Realm_NewString (r : nat) (s : string) : M Value.t :=
  realm ← deref r;
  '(strPtr, _) ← AllocateString (Realm.Pointer realm) s;
  realm ← deref r;
  let deferred := FreeMemory (Realm.Pointer realm) strPtr in
  realm ← deref r;
  ptr ← invoke (Registry.NewString (Realm.Pointer realm) (int32 strPtr));
  _ ← deferred;
  mret {| Value.realm := Some r; Value.ptr := ptr; Value.borrowed := false |}.

(** The default options [&EvalOptions{Filename: "eval", DetectModule:
    true}] for [opts == nil], and ["eval"] for an empty file name. *)
Definition eval_options (opts : option EvalOptions.t) : EvalOptions.t :=
  let o := match opts with
           | None => {| EvalOptions.Filename := "eval";
                        EvalOptions.DetectModule := true |}
           | Some o => o
           end in
  if String.eqb (EvalOptions.Filename o) ""
  then {| EvalOptions.Filename := "eval";
          EvalOptions.DetectModule := EvalOptions.DetectModule o |}
  else o.

(** [EvalCodeWithOptions]. The two [defer mem.FreeMemory(r.Pointer, p)]
    evaluate their arguments where they stand and run, last first, on
    every return that follows them. The result is the pair
    [(Value, error)], the error [nil] being [None]. *)
Definition Realm_EvalCodeWithOptions (r : nat) (code : string)
  (opts : option EvalOptions.t) : M (Value.t * option string) :=
  realm ← deref r;
  if Realm.disposed realm
  then mret (Value.zero, Some "realm is disposed"%string)
  else if len (list_byte_of_string code) =? 0
  then v ← Realm_Undefined r; mret (v, None)
  else
    let opts := eval_options opts in
    realm ← deref r;
    '(codePtr, codeLen) ← AllocateString (Realm.Pointer realm) code;
    if codePtr =? 0
    then mret (Value.zero, Some "failed to allocate code string"%string)
    else
      realm ← deref r;
      let deferred_code := FreeMemory (Realm.Pointer realm) codePtr in
      '(filenamePtr, _) ← AllocateString (Realm.Pointer realm)
                             (EvalOptions.Filename opts);
      if filenamePtr =? 0
      then
        _ ← deferred_code;
        mret (Value.zero, Some "failed to allocate filename string"%string)
      else
        realm ← deref r;
        let deferred_filename :=
          FreeMemory (Realm.Pointer realm) filenamePtr in
        let detectModule :=
          if EvalOptions.DetectModule opts then 1 else 0 in
        realm ← deref r;
        resultPtr ← invoke (Registry.Eval (Realm.Pointer realm)
                              (int32 codePtr) (int32 codeLen)
                              (int32 filenamePtr) detectModule 0);
        realm ← deref r;
        errPtr ← invoke (Registry.GetLastError (Realm.Pointer realm)
                           resultPtr);
        if errPtr =? 0
        then
          _ ← deferred_filename;
          _ ← deferred_code;
          mret ({| Value.realm := Some r; Value.ptr := resultPtr;
                   Value.borrowed := false |}, None)
        else
          realm ← deref r;
          _ ← FreeValuePointer (Realm.Pointer realm) resultPtr;
          let errVal := {| Value.realm := Some r; Value.ptr := errPtr;
                           Value.borrowed := false |} in
          errMsg ← Value_String errVal;
          _ ← Value_Free errVal;
          _ ← deferred_filename;
          _ ← deferred_code;
          mret (Value.zero, Some errMsg).

Definition Realm_EvalCode (r : nat) (code : string)
  : M (Value.t * option string) :=
  Realm_EvalCodeWithOptions r code None.

Definition Realm_dispose (r : nat) : M unit :=
  realm ← deref r;
  if Realm.disposed realm then mret tt
  else
    _ ← store r {| Realm.Pointer := Realm.Pointer realm;
                   Realm.disposed := true |};
    if Realm.Pointer realm =? 0 then mret tt
    else
      _ ← invoke_void (Registry.FreeContext (Realm.Pointer realm));
      store r {| Realm.Pointer := 0; Realm.disposed := true |}.

(** *** Runtime *)

Definition Runtime_dropRealm (r : nat) : M unit :=
  realm ← deref r;
  rt ← gets runtime;
  set_runtime {| Runtime.Pointer := Runtime.Pointer rt;
                 Runtime.realms := delete (Realm.Pointer realm)
                                     (Runtime.realms rt);
                 Runtime.disposed := Runtime.disposed rt;
                 Runtime.wazero_closed := Runtime.wazero_closed rt |}.

Definition Realm_Close (r : nat) : M unit :=
  realm ← deref r;
  if Realm.disposed realm then mret tt
  else
    cm ← gets callbacks;
    _ ← set_callbacks (UnregisterContext (Realm.Pointer realm) cm);
    _ ← Realm_dispose r;
    Runtime_dropRealm r.

Definition Runtime_CreateRealm : M (option nat * option string) :=
  rt ← gets runtime;
  if Runtime.disposed rt
  then mret (None, Some "runtime is disposed"%string)
  else
    ctxPtr ← invoke (Registry.NewContext (Runtime.Pointer rt) 0);
    if ctxPtr =? 0
    then mret (None, Some "create context: NewContext returned null"%string)
    else
      realm ← new_realm {| Realm.Pointer := ctxPtr;
                           Realm.disposed := false |};
      rt ← gets runtime;
      _ ← set_runtime {| Runtime.Pointer := Runtime.Pointer rt;
                         Runtime.realms := <[ctxPtr := realm]>
                                             (Runtime.realms rt);
                         Runtime.disposed := Runtime.disposed rt;
                         Runtime.wazero_closed := Runtime.wazero_closed rt |};
      cm ← gets callbacks;
      _ ← set_callbacks (RegisterContext ctxPtr realm cm);
      mret (Some realm, None).

Definition Runtime_SetMemoryLimit (bytes : Z) : M unit :=
  rt ← gets runtime;
  invoke_void (Registry.RuntimeSetMemoryLimit (Runtime.Pointer rt) bytes).

Definition Runtime_RunGC : M unit :=
  rt ← gets runtime;
  invoke_void (Registry.RunGC (Runtime.Pointer rt)).

Definition Runtime_IsMicrotaskPending : M bool :=
  rt ← gets runtime;
  n ← invoke (Registry.IsJobPending (Runtime.Pointer rt));
  mret (negb (n =? 0)).

Definition Runtime_ExecuteMicrotasks (maxJobs : Z) : M Z :=
  rt ← gets runtime;
  invoke (Registry.ExecutePendingJob (Runtime.Pointer rt) maxJobs 0).

(** [for _, realm := range rt.realms { realm.dispose() }]: Go ranges
    over a map in no fixed order; the order here is that of the map's
    list of entries. *)
Fixpoint dispose_all (rs : list (Z * nat)) : M unit :=
  match rs with
  | [] => mret tt
  | (_, r) :: rest => _ ← Realm_dispose r; dispose_all rest
  end.

Definition Runtime_Close : M (option string) :=
  rt ← gets runtime;
  if Runtime.disposed rt then mret None
  else
    _ ← set_runtime {| Runtime.Pointer := Runtime.Pointer rt;
                       Runtime.realms := Runtime.realms rt;
                       Runtime.disposed := true;
                       Runtime.wazero_closed := Runtime.wazero_closed rt |};
    _ ← dispose_all (map_to_list (Runtime.realms rt));
    rt ← gets runtime;
    _ ← set_runtime {| Runtime.Pointer := Runtime.Pointer rt;
                       Runtime.realms := ∅;
                       Runtime.disposed := Runtime.disposed rt;
                       Runtime.wazero_closed := Runtime.wazero_closed rt |};
    rt ← gets runtime;
    _ ← (if Runtime.Pointer rt =? 0 then mret tt
         else
           cm ← gets callbacks;
           _ ← set_callbacks (UnregisterRuntime (Runtime.Pointer rt) cm);
           _ ← invoke_void (Registry.FreeRuntime (Runtime.Pointer rt));
           rt ← gets runtime;
           set_runtime {| Runtime.Pointer := 0;
                          Runtime.realms := Runtime.realms rt;
                          Runtime.disposed := Runtime.disposed rt;
                          Runtime.wazero_closed :=
                            Runtime.wazero_closed rt |});
    rt ← gets runtime;
    _ ← set_runtime {| Runtime.Pointer := Runtime.Pointer rt;
                       Runtime.realms := Runtime.realms rt;
                       Runtime.disposed := Runtime.disposed rt;
                       Runtime.wazero_closed := true |};
    gets (fun w => close_error (engine w)).

End Host.

(** ** Accounting of what the engine hands out *)

(** What the host holds after an entry point answered a non-null offset
    or handle, and must give back: memory from [Malloc], a C string from
    [ToCString], a value handle from the entry points that return a new
    value. *)
Inductive Resource : Type :=
| RMem (p : Z)
| RCStr (p : Z)
| RVal (p : Z).

Definition acquired (e : Event) : list Resource :=
  match e with
  | ECall (Registry.Malloc _ _) p => if p =? 0 then [] else [RMem p]
  | ECall (Registry.ToCString _ _) p => if p =? 0 then [] else [RCStr p]
  | ECall (Registry.Eval _ _ _ _ _ _) p
  | ECall (Registry.GetLastError _ _) p
  | ECall (Registry.DupValuePointer _ _) p
  | ECall (Registry.GetGlobalObject _) p
  | ECall (Registry.NewObject _) p
  | ECall (Registry.NewArray _) p
  | ECall (Registry.NewString _ _) p => if p =? 0 then [] else [RVal p]
  | _ => []
  end.

Definition released (e : Event) : list Resource :=
  match e with
  | ECall (Registry.Free _ p) _ => [RMem p]
  | ECall (Registry.FreeCString _ p) _ => [RCStr p]
  | ECall (Registry.FreeValuePointer _ p) _ => [RVal p]
  | _ => []
  end.

(** What a Value returned to the caller makes the caller responsible for. *)
Definition handed_over (v : Value.t) : list Resource :=
  if (Value.ptr v =? 0) || Value.borrowed v then [] else [RVal (Value.ptr v)].

(** Nothing leaks over [evs]: what was acquired is, counted with
    multiplicity, what was released and what was handed to the caller. *)
Definition no_leak (evs : list Event) (kept : list Resource) : Prop :=
  flat_map acquired evs ≡ₚ flat_map released evs ++ kept.




(** How often the engine's value-release entry point was invoked for the
    handle [p]. *)
Definition is_release (p : Z) (c : Registry.Call) : bool :=
  match c with
  | Registry.FreeValuePointer _ q => q =? p
  | _ => false
  end.

Definition release_count (p : Z) (t : list Event) : nat :=
  length (List.filter (is_release p) (engine_calls t)).

(** ** A small engine to run the host against *)

(** Offsets and handles are handed out 16 apart; [GetLastError] reports an
    exception exactly when [throws]; [ToCString] stores the text "oops". *)
Definition toy_entry (throws : bool) (c : Registry.Call) (next : Z)
  (m : Memory.t) : Z * Z * Memory.t :=
  match c with
  | Registry.Malloc _ _ | Registry.NewContext _ _
  | Registry.Eval _ _ _ _ _ _ | Registry.DupValuePointer _ _
  | Registry.NewObject _ | Registry.NewArray _ | Registry.NewString _ _
  | Registry.GetGlobalObject _ => (next, next + 16, m)
  | Registry.GetLastError _ _ =>
      if throws then (next, next + 16, m) else (0, next, m)
  | Registry.ToCString _ _ =>
      (next, next + 16,
       fst (Memory.Write m next (list_byte_of_string "oops" ++ [x00])))
  | Registry.GetUndefined => (1, next, m)
  | Registry.GetNull => (2, next, m)
  | _ => (0, next, m)
  end.

Definition toy (throws : bool) : Engine :=
  {| engine_state := Z; entry := toy_entry throws;
     close_error := fun _ => None |}.

(** The world as [New] leaves it when the engine answered [rtPtr] to
    [NewRuntime] and no memory limit was asked for: no realms, the runtime
    registered with its callback manager. *)
Definition new_world `{Eng : Engine} (e : engine_state) (m : Memory.t)
  (rtPtr : Z) : World :=
  {| engine := e; memory := m; trace := []; heap := [];
     runtime := {| Runtime.Pointer := rtPtr; Runtime.realms := ∅;
                   Runtime.disposed := false;
                   Runtime.wazero_closed := false |};
     callbacks := RegisterRuntime rtPtr NewCallbackManager |}.

Definition toy_world (throws : bool) : @World (toy throws) :=
  @new_world (toy throws) 16 (replicate 256 x00) 8.

(** The same after one [CreateRealm]: the realm at address 0 holds the
    context handle 16. *)
Definition toy_realm_world (throws : bool) : @World (toy throws) :=
  snd (@Runtime_CreateRealm (toy throws) (toy_world throws)).

Definition toy_realm : Realm.t :=
  {| Realm.Pointer := 16; Realm.disposed := false |}.

(** An owned Value of the realm at address 0. *)
Definition toy_value : Value.t :=
  {| Value.realm := Some 0%nat; Value.ptr := 48; Value.borrowed := false |}.

(** The small engine with a duplicate entry point that answers null. *)
Definition toy_nodup_entry (c : Registry.Call) (next : Z) (m : Memory.t)
  : Z * Z * Memory.t :=
  match c with
  | Registry.DupValuePointer _ _ => (0, next, m)
  | _ => toy_entry false c next m
  end.

Definition toy_nodup : Engine :=
  {| engine_state := Z; entry := toy_nodup_entry;
     close_error := fun _ => None |}.

(** Its world after one [CreateRealm]: the realm at address 0 holds the
    context handle 16. *)
Definition toy_nodup_world : @World toy_nodup :=
  snd (@Runtime_CreateRealm toy_nodup
         (@new_world toy_nodup 16 (replicate 256 x00) 8)).

(** The small engine with a bounded allocator: [Malloc] answers null once
    the next offset has reached [limit]. *)
Definition toy_oom_entry (limit : Z) (c : Registry.Call) (next : Z)
  (m : Memory.t) : Z * Z * Memory.t :=
  match c with
  | Registry.Malloc _ _ =>
      if limit <=? next then (0, next, m) else toy_entry false c next m
  | _ => toy_entry false c next m
  end.

Definition toy_oom (limit : Z) : Engine :=
  {| engine_state := Z; entry := toy_oom_entry limit;
     close_error := fun _ => None |}.

(** Its world after one [CreateRealm]: the realm at address 0 holds the
    context handle 16, and the next offset is 32. *)
Definition toy_oom_world (limit : Z) : @World (toy_oom limit) :=
  snd (@Runtime_CreateRealm (toy_oom limit)
         (@new_world (toy_oom limit) 16 (replicate 256 x00) 8)).

(** * Properties *)

(** ** Linear Memory Accessor *)

Lemma until_zero_no_zero (data : list byte) :
  Forall (fun b => b <> x00) data -> Memory.until_zero data = data.
Proof.
  induction 1 as [|b rest Hb _ IH]; simpl; [reflexivity|].
  destruct (Byte.eqb b x00) eqn:E.
  - apply Byte.byte_dec_bl in E. contradiction.
  - now rewrite IH.
Qed.

Lemma uint32_small (z : Z) : 0 <= z < 2 ^ 32 -> uint32 z = z.
Proof. intros H. unfold uint32. now apply Z.mod_small. Qed.

Lemma uint32_range (z : Z) : 0 <= uint32 z < 2 ^ 32.
Proof. unfold uint32. apply Z.mod_pos_bound. lia. Qed.

Lemma uint32_int32 (z : Z) : uint32 (int32 z) = uint32 z.
Proof.
  unfold uint32, int32. rewrite Zminus_mod_idemp_l. f_equal. lia.
Qed.

Lemma uint32_add_small (z k : Z) :
  0 <= k -> uint32 z + k < 2 ^ 32 -> uint32 (z + k) = uint32 z + k.
Proof.
  intros Hk Hlt. pose proof (uint32_range z) as Hz. unfold uint32 in *.
  rewrite <- Zplus_mod_idemp_l. apply Z.mod_small. lia.
Qed.


(** A write over a stretch of the buffer replaces that stretch. *)
Lemma Write_middle (pre old post data : list byte) (o : Z) :
  o = len pre -> length old = length data ->
  Memory.Write (pre ++ old ++ post) o data = (pre ++ data ++ post, true).
Proof.
  intros -> Hlen. unfold Memory.Write, Memory.hasSize, len.
  rewrite !length_app, Hlen.
  replace (_ <=? _) with true by (symmetry; apply Z.leb_le; lia).
  rewrite Nat2Z.id, take_app_length. do 3 f_equal.
  rewrite <- drop_drop, drop_app_length, <- Hlen.
  apply drop_app_length.
Qed.

Lemma Read_middle (pre mid post : list byte) (o n : Z) :
  o = len pre -> n = len mid ->
  Memory.Read (pre ++ mid ++ post) o n = Some mid.
Proof.
  intros -> ->. unfold Memory.Read, Memory.hasSize, len.
  rewrite !length_app.
  replace (_ <=? _) with true by (symmetry; apply Z.leb_le; lia).
  now rewrite !Nat2Z.id, drop_app_length, take_app_length.
Qed.

(** A stretch of [n] bytes at [o] splits the buffer in three. *)
Lemma split_at (m : list byte) (o n : nat) :
  (o + n <= length m)%nat ->
  exists pre mid post,
    m = pre ++ mid ++ post /\ length pre = o /\ length mid = n /\
    pre = take o m /\ post = drop (o + n) m.
Proof.
  intros H. exists (take o m), (take n (drop o m)), (drop (o + n) m).
  repeat split.
  - rewrite <- drop_drop, take_drop, take_drop. reflexivity.
  - rewrite length_take. lia.
  - rewrite length_take, length_drop. lia.
Qed.

Lemma Z_of_byte_of_Z (z : Z) :
  Memory.Z_of_byte (Memory.byte_of_Z z) = z mod 256.
Proof.
  unfold Memory.Z_of_byte, Memory.byte_of_Z.
  assert (H : 0 <= z mod 256 < 256) by (apply Z.mod_pos_bound; lia).
  set (n := Z.to_N (z mod 256)).
  assert (Hn : (n < 256)%N) by (subst n; lia).
  pose proof (byte_of_ascii_via_N (ascii_of_N n)) as E.
  rewrite (N_ascii_embedding n Hn) in E. symmetry in E.
  apply Byte.to_of_N in E. rewrite E. subst n. lia.
Qed.

(** The four bytes of [le32 v], read back least significant first, are
    [v] as a uint32. *)
Lemma of_le32_le32 (v : Z) : Memory.of_le32 (Memory.le32 v) = uint32 v.
Proof.
  unfold Memory.of_le32, Memory.le32, uint32. cbn [fold_right].
  rewrite !Z_of_byte_of_Z.
  pose proof (Z.div_mod v 256 ltac:(lia)).
  pose proof (Z.div_mod (v / 256) 256 ltac:(lia)).
  pose proof (Z.div_mod (v / 256 / 256) 256 ltac:(lia)).
  pose proof (Z.div_mod (v / 256 / 256 / 256) 256 ltac:(lia)).
  pose proof (Z.mod_pos_bound v 256 ltac:(lia)).
  pose proof (Z.mod_pos_bound (v / 256) 256 ltac:(lia)).
  pose proof (Z.mod_pos_bound (v / 256 / 256) 256 ltac:(lia)).
  pose proof (Z.mod_pos_bound (v / 256 / 256 / 256) 256 ltac:(lia)).
  change (2 ^ 8) with 256.
  replace (v / 2 ^ 16) with (v / 256 / 256)
    by (rewrite Z.div_div by lia; reflexivity).
  replace (v / 2 ^ 24) with (v / 256 / 256 / 256)
    by (rewrite !Z.div_div by lia; reflexivity).
  apply Z.mod_unique with (q := v / 256 / 256 / 256 / 256); [lia|].
  change (2 ^ 32) with 4294967296. lia.
Qed.

(** A 32-bit value written in range is the value read back there. *)
Lemma ReadUint32_WriteUint32 (m : Memory.t) (offset v : Z) :
  uint32 offset + 4 <= len m ->
  Memory.WriteUint32 m offset v
  = (take (Z.to_nat (uint32 offset)) m ++ Memory.le32 v
       ++ drop (Z.to_nat (uint32 offset) + 4) m, true) /\
  Memory.ReadUint32 (fst (Memory.WriteUint32 m offset v)) offset
  = (uint32 v, true).
Proof.
  intros Hin. pose proof (uint32_range offset) as Ho.
  destruct (split_at m (Z.to_nat (uint32 offset)) 4)
    as (pre & mid & post & Hm & Hpre & Hmid & <- & <-);
    [unfold len in Hin; lia|].
  assert (Hlen : uint32 offset = len pre) by (unfold len; lia).
  unfold Memory.WriteUint32, Memory.WriteUint32Le, Memory.ReadUint32,
    Memory.ReadUint32Le.
  rewrite Hm, (Write_middle pre mid post (Memory.le32 v) _ Hlen Hmid).
  split; [reflexivity|]. cbn [fst].
  rewrite (Read_middle pre (Memory.le32 v) post _ 4 Hlen eq_refl).
  now rewrite of_le32_le32.
Qed.

(** C2, as the code has it: for every in-bounds offset whose suffix up to
    the end of the buffer holds no zero byte, [ReadString] succeeds
    ([ok = true]) and returns that whole unterminated suffix. The buffer
    is shorter than 4 GiB, so that its size is a uint32. *)
Theorem ReadString_unterminated_returns_suffix (m : Memory.t) (offset : Z) :
  len m < 2 ^ 32 ->
  in_bounds m offset ->
  Forall (fun b => b <> x00) (suffix m offset) ->
  Memory.ReadString m offset = (string_of_list_byte (suffix m offset), true).
Proof.
  unfold in_bounds, suffix, Memory.ReadString, Memory.Read, Memory.hasSize,
    Memory.Size, len.
  intros Hlen Hin Hnz.
  assert (Hsz : uint32 (Z.of_nat (length m)) = Z.of_nat (length m))
    by (apply uint32_small; lia).
  rewrite Hsz in *.
  pose proof (uint32_range offset) as Ho.
  rewrite (uint32_small (_ - _)) by lia.
  replace (uint32 offset + (Z.of_nat (length m) - uint32 offset) <=?
           Z.of_nat (length m)) with true by (symmetry; apply Z.leb_le; lia).
  rewrite take_ge by (rewrite length_drop; lia).
  now rewrite until_zero_no_zero.
Qed.

(** The two bytes "ab" without terminator, read at offset 0. *)
Lemma ReadString_unterminated_returns_suffix_witness :
  Memory.ReadString [x61; x62] 0 = ("ab"%string, true).
Proof.
  apply (ReadString_unterminated_returns_suffix [x61; x62] 0).
  - reflexivity.
  - unfold in_bounds. vm_compute. discriminate.
  - repeat constructor; discriminate.
Defined.

(** C2, as the claim states it, fails: the two bytes "ab" hold no zero
    byte, offset 0 is in bounds, and the read is reported as a success
    with the unterminated data. *)
Lemma ReadString_unterminated_is_not_rejected :
  in_bounds [x61; x62] 0 /\
  Forall (fun b => b <> x00) (suffix [x61; x62] 0) /\
  Memory.ReadString [x61; x62] 0 = ("ab"%string, true) /\
  snd (Memory.ReadString [x61; x62] 0) <> false.
Proof.
  split; [unfold in_bounds; vm_compute; discriminate|].
  split; [repeat constructor; discriminate|].
  split; [reflexivity|]. vm_compute. discriminate.
Qed.



(** ** Callback Router *)





(** ** More on the Linear Memory Accessor *)

Lemma Write_in_range (m : Memory.t) (o : Z) (data : list byte) :
  0 <= o -> o + len data <= len m ->
  Memory.Write m o data
  = (take (Z.to_nat o) m ++ data
       ++ drop (Z.to_nat o + length data) m, true).
Proof.
  intros Ho Hin. unfold Memory.Write, Memory.hasSize.
  now replace (_ <=? _) with true by (symmetry; apply Z.leb_le; lia).
Qed.

Lemma Write_length (m : Memory.t) (o : Z) (data : list byte) :
  0 <= o -> length (fst (Memory.Write m o data)) = length m.
Proof.
  intros Ho. unfold Memory.Write, Memory.hasSize, len.
  destruct (_ <=? _) eqn:E; [|reflexivity].
  apply Z.leb_le in E. cbn [fst].
  rewrite !length_app, length_take, length_drop. lia.
Qed.

Lemma until_zero_terminated (pre rest : list byte) :
  Forall (fun b => b <> x00) pre ->
  Memory.until_zero (pre ++ x00 :: rest) = pre.
Proof.
  induction 1 as [|b pre Hb _ IH]; cbn; [reflexivity|].
  destruct (Byte.eqb b x00) eqn:E.
  - apply Byte.byte_dec_bl in E. contradiction.
  - now rewrite IH.
Qed.

(** [ReadString] on a buffer shorter than 4 GiB reads the whole suffix
    from an offset that does not pass the end. *)
Lemma ReadString_reads_suffix (m : Memory.t) (offset : Z) :
  len m < 2 ^ 32 -> uint32 offset <= len m ->
  Memory.ReadString m offset
  = (string_of_list_byte (Memory.until_zero (suffix m offset)), true).
Proof.
  intros Hlen Hin. pose proof (uint32_range offset) as Ho.
  unfold Memory.ReadString, Memory.Read, Memory.hasSize, Memory.Size, suffix.
  rewrite (uint32_small (len m)) by (unfold len in *; lia).
  rewrite (uint32_small (_ - _)) by lia.
  replace (_ <=? _) with true by (symmetry; apply Z.leb_le; lia).
  rewrite take_ge; [reflexivity|].
  rewrite length_drop. unfold len in *. lia.
Qed.

(** The host's writes, whether they succeed or not, leave the size of
    linear memory as it is, and a write that reports failure leaves every
    byte as it is; so does the load_module callback, whatever its output
    offset. *)
Theorem writes_preserve_size (m : Memory.t) (offset v : Z)
  (data : list byte) (s : string) (cm : CallbackManager.t)
  (rt jsCtx namePtr opaque : Z) :
  length (fst (Memory.WriteBytes m offset data)) = length m /\
  length (fst (Memory.WriteUint32 m offset v)) = length m /\
  length (fst (Memory.WriteString m offset s)) = length m /\
  length (fst (load_module cm m rt jsCtx namePtr opaque offset)) = length m /\
  (snd (Memory.WriteBytes m offset data) = false ->
   fst (Memory.WriteBytes m offset data) = m).
Proof.
  pose proof (uint32_range offset) as Ho.
  unfold load_module, handleLoadModule, Memory.WriteBytes,
    Memory.WriteUint32, Memory.WriteUint32Le, Memory.WriteString.
  cbn [fst snd].
  rewrite !Write_length by (try apply uint32_range; lia).
  do 4 (split; [reflexivity|]).
  unfold Memory.Write.
  destruct (Memory.hasSize m (uint32 offset) (len data));
    [discriminate | reflexivity].
Qed.


(** Bytes written in range are the bytes read back there, and every byte
    outside the written stretch is as before. *)
Theorem ReadBytes_WriteBytes (m : Memory.t) (offset : Z) (data : list byte) :
  uint32 offset + len data <= len m ->
  let m' := fst (Memory.WriteBytes m offset data) in
  snd (Memory.WriteBytes m offset data) = true /\
  Memory.ReadBytes m' offset (len data) = Some data /\
  forall i : nat,
    (Z.of_nat i < uint32 offset \/ uint32 offset + len data <= Z.of_nat i) ->
    m' !! i = m !! i.
Proof.
  intros Hin. cbn zeta. pose proof (uint32_range offset) as Ho.
  destruct (split_at m (Z.to_nat (uint32 offset)) (length data))
    as (pre & old & post & Hm & Hpre & Hold & _ & _);
    [unfold len in Hin; lia|].
  assert (Hlen : uint32 offset = len pre) by (unfold len; lia).
  unfold Memory.WriteBytes, Memory.ReadBytes.
  rewrite Hm, (Write_middle pre old post data _ Hlen Hold). cbn [fst snd].
  split; [reflexivity|].
  split; [now apply Read_middle|].
  intros i Hi. unfold len, Memory.t in *.
  destruct (decide (i < length pre)%nat) as [Hlt|Hge].
  - now rewrite !lookup_app_l.
  - rewrite !(lookup_app_r pre) by lia.
    rewrite !lookup_app_r by lia. now rewrite Hold.
Qed.

(** The witness: two bytes written at offset 1 of a four-byte buffer. *)
Lemma ReadBytes_WriteBytes_witness :
  Memory.ReadBytes (fst (Memory.WriteBytes [x01; x02; x03; x04] 1 [xaa; xbb]))
    1 2 = Some [xaa; xbb].
Proof.
  destruct (ReadBytes_WriteBytes [x01; x02; x03; x04] 1 [xaa; xbb])
    as (_ & H & _); [vm_compute; discriminate|].
  exact H.
Defined.

(** The witness of [ReadUint32_WriteUint32]: a value wider than 32 bits,
    written at offset 2 of an eight-byte buffer, reads back modulo 2^32. *)
Lemma ReadUint32_WriteUint32_witness :
  Memory.ReadUint32
    (fst (Memory.WriteUint32 (replicate 8 x00) 2 (2 ^ 32 + 258))) 2
  = (258, true).
Proof.
  destruct (ReadUint32_WriteUint32 (replicate 8 x00) 2 (2 ^ 32 + 258))
    as [_ H]; [vm_compute; discriminate|].
  rewrite H. reflexivity.
Defined.

(** [ReadString] stops at the first zero byte: when the bytes from the
    offset on are [pre], free of zero bytes, then a zero byte, the string
    read is [pre], and what follows the terminator does not matter. *)
Theorem ReadString_stops_at_terminator
  (m : Memory.t) (offset : Z) (pre rest : list byte) :
  len m < 2 ^ 32 ->
  suffix m offset = pre ++ x00 :: rest ->
  Forall (fun b => b <> x00) pre ->
  Memory.ReadString m offset = (string_of_list_byte pre, true).
Proof.
  intros Hlen Hsuf Hnz.
  assert (Hin : uint32 offset <= len m).
  { unfold suffix in Hsuf. unfold len.
    destruct (decide (length m <= Z.to_nat (uint32 offset))%nat) as [Hge|];
      [|lia].
    rewrite drop_ge in Hsuf by exact Hge. now destruct pre. }
  rewrite ReadString_reads_suffix by assumption.
  now rewrite Hsuf, until_zero_terminated.
Qed.

Lemma ReadString_stops_at_terminator_witness :
  Memory.ReadString [x61; x62; x00; x63] 0 = ("ab"%string, true).
Proof.
  apply (ReadString_stops_at_terminator [x61; x62; x00; x63] 0
           [x61; x62] [x63]).
  - reflexivity.
  - reflexivity.
  - repeat constructor; discriminate.
Defined.

(** An offset past the end of the buffer makes [ReadString] fail with the
    empty string: the length [Size() - offset] wraps around as a uint32
    and the read is refused. *)
Theorem ReadString_out_of_range (m : Memory.t) (offset : Z) :
  len m < 2 ^ 32 -> len m < uint32 offset ->
  Memory.ReadString m offset = (EmptyString, false).
Proof.
  intros Hlen Hout. pose proof (uint32_range offset) as Ho.
  assert (Hm : 0 <= len m) by (unfold len; lia).
  unfold Memory.ReadString, Memory.Read, Memory.hasSize, Memory.Size.
  rewrite (uint32_small (len m)) by lia.
  assert (Hw : uint32 (len m - uint32 offset)
               = len m - uint32 offset + 2 ^ 32).
  { unfold uint32 at 1.
    rewrite <- (Z.mod_add _ 1) by lia. apply Z.mod_small. lia. }
  rewrite Hw.
  now replace (_ <=? _) with false by (symmetry; apply Z.leb_gt; lia).
Qed.

Lemma ReadString_out_of_range_witness :
  Memory.ReadString [x61; x00] 3 = (EmptyString, false).
Proof.
  apply ReadString_out_of_range; vm_compute; reflexivity.
Defined.

(** A zero-free run of bytes and its terminator written in range are
    read back by [ReadString] as that run. *)
Lemma ReadString_after_terminated_Write
  (m : Memory.t) (offset : Z) (bs : list byte) :
  len m < 2 ^ 32 ->
  uint32 offset + len bs + 1 <= len m ->
  Forall (fun b => b <> x00) bs ->
  snd (Memory.Write m (uint32 offset) (bs ++ [x00])) = true /\
  Memory.ReadString (fst (Memory.Write m (uint32 offset) (bs ++ [x00])))
    offset = (string_of_list_byte bs, true).
Proof.
  intros Hlen Hin Hnz. pose proof (uint32_range offset) as Ho.
  assert (Hl : len (bs ++ [x00]) = len bs + 1)
    by (unfold len; rewrite length_app; cbn; lia).
  rewrite Write_in_range by lia. cbn [fst snd]. split; [reflexivity|].
  rewrite ReadString_reads_suffix.
  - unfold suffix. rewrite drop_app_length'.
    + rewrite <- app_assoc. cbn [app].
      now rewrite until_zero_terminated.
    + rewrite length_take. unfold len in *. lia.
  - unfold len in *. rewrite !length_app, length_take, length_drop.
    cbn [length]. lia.
  - unfold len in *. rewrite !length_app, length_take, length_drop.
    cbn [length]. lia.
Qed.

(** A string without zero byte written by [WriteString] in range is the
    string [ReadString] reads back at that offset. *)
Theorem ReadString_WriteString (m : Memory.t) (offset : Z) (s : string) :
  len m < 2 ^ 32 ->
  uint32 offset + len (list_byte_of_string s) + 1 <= len m ->
  Forall (fun b => b <> x00) (list_byte_of_string s) ->
  snd (Memory.WriteString m offset s) = true /\
  Memory.ReadString (fst (Memory.WriteString m offset s)) offset = (s, true).
Proof.
  intros Hlen Hin Hnz. unfold Memory.WriteString.
  destruct (ReadString_after_terminated_Write m offset
              (list_byte_of_string s) Hlen Hin Hnz) as [Hok Hrd].
  split; [exact Hok|].
  now rewrite Hrd, string_of_list_byte_of_string.
Qed.

Lemma ReadString_WriteString_witness :
  Memory.ReadString (fst (Memory.WriteString (replicate 8 xff) 2 "hi")) 2
  = ("hi"%string, true).
Proof.
  apply (ReadString_WriteString (replicate 8 xff) 2 "hi").
  - reflexivity.
  - vm_compute. discriminate.
  - repeat constructor; discriminate.
Defined.

(** ** More on the Callback Router *)

(** Registration and resolution: a registered context handle resolves to
    its realm and the other handles resolve as before; unregistering
    removes that handle alone; neither touches the runtime mapping; and
    registering then unregistering a handle that was not registered gives
    back the manager as it was. *)
Theorem RegisterContext_resolution
  (cm : CallbackManager.t) (p q : Z) (realm : nat) :
  CallbackManager.contexts (RegisterContext p realm cm) !! p = Some realm /\
  CallbackManager.contexts (UnregisterContext p cm) !! p = None /\
  (q <> p ->
   CallbackManager.contexts (RegisterContext p realm cm) !! q
   = CallbackManager.contexts cm !! q /\
   CallbackManager.contexts (UnregisterContext p cm) !! q
   = CallbackManager.contexts cm !! q) /\
  CallbackManager.runtimes (RegisterContext p realm cm)
  = CallbackManager.runtimes cm /\
  CallbackManager.runtimes (UnregisterContext p cm)
  = CallbackManager.runtimes cm /\
  (CallbackManager.contexts cm !! p = None ->
   UnregisterContext p (RegisterContext p realm cm) = cm).
Proof.
  unfold RegisterContext, UnregisterContext. cbn.
  split; [apply lookup_insert_eq|].
  split; [apply lookup_delete_eq|].
  split.
  { intros Hne. now rewrite lookup_insert_ne, lookup_delete_ne. }
  do 2 (split; [reflexivity|]).
  intros Hnone. destruct cm as [cs rs]. cbn in *.
  now rewrite delete_insert_id.
Qed.

Lemma RegisterContext_resolution_witness :
  CallbackManager.contexts (RegisterContext 16 0 NewCallbackManager) !! 32
  = None /\
  UnregisterContext 16 (RegisterContext 16 0 NewCallbackManager)
  = NewCallbackManager.
Proof.
  destruct (RegisterContext_resolution NewCallbackManager 16 32 0%nat)
    as (_ & _ & Hother & _ & _ & Hback).
  split.
  - destruct Hother as [-> _]; [discriminate|]. reflexivity.
  - apply Hback. reflexivity.
Defined.

(** The same for runtime handles. *)
Theorem RegisterRuntime_resolution (cm : CallbackManager.t) (p q : Z) :
  CallbackManager.runtimes (RegisterRuntime p cm) !! p = Some tt /\
  CallbackManager.runtimes (UnregisterRuntime p cm) !! p = None /\
  (q <> p ->
   CallbackManager.runtimes (RegisterRuntime p cm) !! q
   = CallbackManager.runtimes cm !! q /\
   CallbackManager.runtimes (UnregisterRuntime p cm) !! q
   = CallbackManager.runtimes cm !! q) /\
  CallbackManager.contexts (RegisterRuntime p cm)
  = CallbackManager.contexts cm /\
  CallbackManager.contexts (UnregisterRuntime p cm)
  = CallbackManager.contexts cm /\
  (CallbackManager.runtimes cm !! p = None ->
   UnregisterRuntime p (RegisterRuntime p cm) = cm).
Proof.
  unfold RegisterRuntime, UnregisterRuntime. cbn.
  split; [apply lookup_insert_eq|].
  split; [apply lookup_delete_eq|].
  split.
  { intros Hne. now rewrite lookup_insert_ne, lookup_delete_ne. }
  do 2 (split; [reflexivity|]).
  intros Hnone. destruct cm as [cs rs]. cbn in *.
  now rewrite delete_insert_id.
Qed.

Lemma RegisterRuntime_resolution_witness :
  CallbackManager.runtimes (RegisterRuntime 8 NewCallbackManager) !! 9 = None
  /\ UnregisterRuntime 8 (RegisterRuntime 8 NewCallbackManager)
     = NewCallbackManager.
Proof.
  destruct (RegisterRuntime_resolution NewCallbackManager 8 9)
    as (_ & _ & Hother & _ & _ & Hback).
  split.
  - destruct Hother as [-> _]; [discriminate|]. reflexivity.
  - apply Hback. reflexivity.
Defined.



(** The load_module callback with an output offset at which not even the
    first field fits, and without wrap-around of the two further
    offsets, writes nothing and still returns the error source type. *)
Theorem load_module_out_of_range
  (cm : CallbackManager.t) (mem : Memory.t)
  (rt jsCtx moduleNamePtr opaque outPtr : Z) :
  len mem < uint32 outPtr + 4 -> uint32 outPtr + 12 <= 2 ^ 32 ->
  load_module cm mem rt jsCtx moduleNamePtr opaque outPtr
  = (mem, ModuleSourceError).
Proof.
  intros Hout Hwrap. pose proof (uint32_range outPtr) as Ho.
  assert (H4 : uint32 (int32 (outPtr + 4)) = uint32 outPtr + 4)
    by (rewrite uint32_int32, uint32_add_small; lia).
  assert (H8 : uint32 (int32 (outPtr + 8)) = uint32 outPtr + 8)
    by (rewrite uint32_int32, uint32_add_small; lia).
  assert (Hw : forall o v, len mem < o + 4 ->
                 Memory.Write mem o (Memory.le32 v) = (mem, false)).
  { intros o v Hlt. unfold Memory.Write, Memory.hasSize.
    change (len (Memory.le32 v)) with 4.
    now replace (_ <=? _) with false by (symmetry; apply Z.leb_gt; lia). }
  unfold load_module, handleLoadModule, Memory.WriteUint32,
    Memory.WriteUint32Le.
  rewrite H4, H8. repeat (rewrite Hw by lia; cbn [fst]). reflexivity.
Qed.

Lemma load_module_out_of_range_witness :
  load_module NewCallbackManager [xff; xff] 8 16 0 0 0
  = ([xff; xff], ModuleSourceError).
Proof.
  apply load_module_out_of_range; vm_compute; [reflexivity | discriminate].
Defined.

(** ** Runtime / Realm / Value facade *)

Section HostProperties.

Context `{Eng : Engine}.

(** Unfolding of the host's primitives down to the engine's answers. *)
Ltac unfold_host :=
  unfold Value_Free, Value_Dup, Value_String, Realm_Undefined, Realm_Null,
    ReadNullTerminatedString, AllocateString, AllocateMemory, FreeMemory,
    FreeCString, FreeValuePointer, DupValuePointer, Memory_WriteBytes,
    Memory_ReadString, store, new_realm, deref, set_heap, set_runtime,
    set_callbacks, gets, invoke, invoke_void, mbind, M_bind, mret, M_ret.

(** Case analysis on what the engine answers and on the null tests. *)
Ltac answer :=
  match goal with
  | |- context [entry ?c ?e ?m] =>
      let r := fresh "r" in
      let e' := fresh "e" in
      let m' := fresh "m" in
      destruct (entry c e m) as [[r e'] m'] eqn:?
  | |- context [Memory.WriteBytes ?m ?o ?d] =>
      destruct (Memory.WriteBytes m o d) as [? ?] eqn:?
  | |- context [Memory.ReadString ?m ?o] =>
      destruct (Memory.ReadString m o) as [? ?] eqn:?
  | |- context [?x =? 0] => destruct (x =? 0) eqn:?
  end.

Ltac run := unfold_host; repeat (cbn -[Z.eqb]; try answer).

Lemma engine_calls_app (t1 t2 : list Event) :
  engine_calls (t1 ++ t2) = engine_calls t1 ++ engine_calls t2.
Proof. unfold engine_calls. apply flat_map_app. Qed.

Lemma release_count_app (p : Z) (t1 t2 : list Event) :
  release_count p (t1 ++ t2)
  = (release_count p t1 + release_count p t2)%nat.
Proof.
  unfold release_count.
  now rewrite engine_calls_app, List.filter_app, length_app.
Qed.

(** One [Free] of an owned, non-null Value: one release, and the host's
    objects are as they were. *)
Lemma Value_Free_owned (w : World) (v : Value.t) (r : nat) :
  Value.realm v = Some r -> Value.ptr v <> 0 -> Value.borrowed v = false ->
  exists w',
    Value_Free v w = (tt, w') /\
    trace w' = trace w
      ++ [ECall (Registry.FreeValuePointer
                   (Realm.Pointer (default Realm.nil (heap w !! r)))
                   (Value.ptr v)) 0] /\
    heap w' = heap w /\ runtime w' = runtime w /\
    callbacks w' = callbacks w.
Proof.
  intros Hr Hp Hb. apply Z.eqb_neq in Hp.
  unfold Value_Free. rewrite Hr, Hp, Hb. run; [lia|].
  eexists. repeat split.
Qed.

(** [Free] of a borrowed Value, of a null handle, or of the zero Value
    leaves the world as it is. *)
Lemma Value_Free_noop (w : World) (v : Value.t) :
  Value.realm v = None \/ Value.ptr v = 0 \/ Value.borrowed v = true ->
  Value_Free v w = (tt, w).
Proof.
  unfold Value_Free. intros [H | [H | H]]; rewrite H.
  - reflexivity.
  - now destruct (Value.realm v).
  - destruct (Value.realm v); [|reflexivity].
    now rewrite orb_true_r.
Qed.

(** C1, as the code has it: a Value keeps no record of having been
    freed, and every one of [n] calls of [Free] on an owned, non-null,
    not borrowed Value invokes the engine's release entry point for its
    handle: [n] calls, [n] releases. *)
Theorem Value_Free_releases_on_every_call
  (w : World) (v : Value.t) (r : nat) (realm : Realm.t) (n : nat) :
  Value.realm v = Some r -> heap w !! r = Some realm ->
  Value.ptr v <> 0 -> Value.borrowed v = false ->
  let w' := snd (Value_Free_times n v w) in
  engine_calls (trace w')
  = engine_calls (trace w)
      ++ replicate n (Registry.FreeValuePointer (Realm.Pointer realm)
                        (Value.ptr v)) /\
  release_count (Value.ptr v) (trace w')
  = (release_count (Value.ptr v) (trace w) + n)%nat.
Proof.
  intros Hr Hh Hp Hb. cbn zeta. revert w Hh.
  induction n as [|n IH]; intros w Hh; cbn [Value_Free_times].
  - cbn. now rewrite app_nil_r, Nat.add_0_r.
  - destruct (Value_Free_owned w v r Hr Hp Hb)
      as (w1 & Hrun & Htr & Hheap & _).
    unfold mbind, M_bind. rewrite Hrun.
    destruct (IH w1) as [IH1 IH2]; [now rewrite Hheap|].
    rewrite IH1, IH2, Htr, engine_calls_app, release_count_app, Hh.
    cbn [default]. split.
    + now rewrite <- app_assoc.
    + unfold release_count at 2. cbn. rewrite Z.eqb_refl. cbn. lia.
Qed.

(** C7: [Undefined()] and [Null()] return Values that carry the borrowed
    flag, and any number of calls of [Free] on them leaves the world,
    and so the trace of entry points invoked, exactly as it was. *)
Theorem borrowed_singletons_never_released (w : World) (r : nat) (n : nat) :
  let '(u, wu) := Realm_Undefined r w in
  let '(nl, wn) := Realm_Null r w in
  Value.borrowed u = true /\ Value.borrowed nl = true /\
  Value_Free_times n u wu = (tt, wu) /\
  Value_Free_times n nl wn = (tt, wn) /\
  release_count (Value.ptr u) (trace (snd (Value_Free_times n u wu)))
  = release_count (Value.ptr u) (trace w) /\
  release_count (Value.ptr nl) (trace (snd (Value_Free_times n nl wn)))
  = release_count (Value.ptr nl) (trace w).
Proof.
  assert (Hn : forall v w0, Value.borrowed v = true ->
                 Value_Free_times n v w0 = (tt, w0)).
  { intros v w0 Hb. induction n as [|k IH]; [reflexivity|].
    cbn [Value_Free_times]. unfold mbind, M_bind.
    rewrite Value_Free_noop by auto. exact IH. }
  destruct (Realm_Undefined r w) as [u wu] eqn:Hu.
  destruct (Realm_Null r w) as [nl wn] eqn:Hl.
  revert Hu Hl. run. intros [= <- <-] [= <- <-]. cbn.
  rewrite !Hn by reflexivity. cbn [snd trace Value.ptr Value.borrowed].
  rewrite !release_count_app.
  repeat split; unfold release_count; cbn; lia.
Qed.

(** C10: [Dup] of a Value with an owning Realm returns a Value that is
    not borrowed, whether or not the original is, after one call of the
    duplicate entry point; [Free] on that duplicate, when the engine
    answered a non-null handle, invokes the release entry point for it,
    and when the engine answered the null handle does nothing at all;
    [Dup] of the zero Value returns the zero Value and leaves the world
    untouched. *)
Theorem Value_Dup_is_owned
  (w : World) (v : Value.t) (r : nat) (realm : Realm.t) :
  Value.realm v = Some r -> heap w !! r = Some realm ->
  let '(d, wd) := Value_Dup v w in
  Value.borrowed d = false /\ Value.realm d = Some r /\
  trace wd = trace w
    ++ [ECall (Registry.DupValuePointer (Realm.Pointer realm)
                 (Value.ptr v)) (Value.ptr d)] /\
  (Value.ptr d <> 0 ->
   engine_calls (trace (snd (Value_Free d wd)))
   = engine_calls (trace wd)
       ++ [Registry.FreeValuePointer (Realm.Pointer realm) (Value.ptr d)]) /\
  (Value.ptr d = 0 -> Value_Free d wd = (tt, wd)) /\
  Value_Dup Value.zero w = (Value.zero, w).
Proof.
  intros Hr Hh.
  assert (Hd : exists p wd,
             Value_Dup v w = ({| Value.realm := Some r; Value.ptr := p;
                                 Value.borrowed := false |}, wd) /\
             trace wd = trace w
               ++ [ECall (Registry.DupValuePointer (Realm.Pointer realm)
                            (Value.ptr v)) p] /\
             heap wd = heap w).
  { unfold Value_Dup. rewrite Hr. run. rewrite Hh.
    eexists _, _. repeat split. }
  destruct Hd as (p & wd & -> & Htr & Hheap).
  cbn [Value.borrowed Value.realm Value.ptr].
  split; [reflexivity|]. split; [reflexivity|]. split; [exact Htr|].
  split; [|split; [|reflexivity]].
  - intros Hp.
    match goal with |- context [Value_Free ?d wd] =>
      destruct (Value_Free_owned wd d r eq_refl Hp eq_refl)
        as (w2 & -> & Htr2 & _)
    end.
    cbn [snd]. rewrite Htr2, engine_calls_app, Hheap, Hh. reflexivity.
  - intros ->. reflexivity.
Qed.

(** C6: on a Realm that is not disposed, evaluating the empty source,
    with whatever options, is [Undefined()]: the borrowed undefined
    Value and no error, after the one entry point [GetUndefined]; the
    evaluation and allocation entry points are not invoked.  The Value
    is the one of Realm [r] whose handle is what the engine answered to
    [GetUndefined], and the world afterwards is the engine's after that
    one call, with the Realm table, the Runtime and the callbacks
    untouched. *)
Theorem EvalCode_empty_source_is_undefined
  (w : World) (r : nat) (realm : Realm.t) (opts : option EvalOptions.t) :
  heap w !! r = Some realm -> Realm.disposed realm = false ->
  let '(u, wu) := Realm_Undefined r w in
  Realm_EvalCodeWithOptions r "" opts w = ((u, None), wu) /\
  Realm_EvalCode r "" w = ((u, None), wu) /\
  Value.borrowed u = true /\
  engine_calls (trace wu) = engine_calls (trace w) ++ [Registry.GetUndefined] /\
  let '(p, e, m) := entry Registry.GetUndefined (engine w) (memory w) in
  u = {| Value.realm := Some r; Value.ptr := p; Value.borrowed := true |} /\
  wu = {| engine := e; memory := m;
          trace := trace w ++ [ECall Registry.GetUndefined p];
          heap := heap w; runtime := runtime w; callbacks := callbacks w |}.
Proof.
  intros Hh Hd. destruct (Realm_Undefined r w) as [u wu] eqn:Hu.
  assert (Hgen : forall o,
             Realm_EvalCodeWithOptions r "" o w = ((u, None), wu)).
  { intros o. unfold Realm_EvalCodeWithOptions.
    unfold mbind at 1. unfold M_bind at 1. unfold deref at 1, gets at 1.
    rewrite Hh. cbn [default from_option id]. rewrite Hd.
    change (len (list_byte_of_string "") =? 0) with true. cbv iota.
    unfold mbind, M_bind. rewrite Hu. reflexivity. }
  split; [apply Hgen|]. split; [apply Hgen|].
  revert Hu. run. intros [= <- <-]. split; [reflexivity|].
  cbn [trace]. rewrite engine_calls_app. repeat split.
Qed.



(** *** Disposal *)

(** Disposing a Realm touches neither the Runtime nor the callback
    manager. *)
Lemma Realm_dispose_frame (r : nat) (w : World) :
  runtime (snd (Realm_dispose r w)) = runtime w /\
  callbacks (snd (Realm_dispose r w)) = callbacks w.
Proof.
  unfold Realm_dispose. run.
  all: destruct (Realm.disposed _); cbn -[Z.eqb]; auto.
  all: repeat (answer; cbn -[Z.eqb]); auto.
Qed.

Lemma dispose_all_frame (rs : list (Z * nat)) (w : World) :
  runtime (snd (dispose_all rs w)) = runtime w /\
  callbacks (snd (dispose_all rs w)) = callbacks w.
Proof.
  revert w. induction rs as [|[p r] rs IH]; intros w; [now split|].
  cbn [dispose_all]. unfold mbind, M_bind.
  destruct (Realm_dispose_frame r w) as [Hrt Hcb].
  destruct (Realm_dispose r w) as [[] w1]. cbn [snd] in *.
  destruct (IH w1) as [-> ->]. now split.
Qed.

(** [Runtime.Close] leaves the mapping of context handles of the
    callback manager as it found it. *)
Lemma Runtime_Close_keeps_contexts (w : World) :
  CallbackManager.contexts (callbacks (snd (Runtime_Close w)))
  = CallbackManager.contexts (callbacks w).
Proof.
  unfold Runtime_Close. unfold_host.
  destruct (Runtime.disposed (runtime w)); [reflexivity|].
  match goal with |- context [dispose_all ?rs ?w1] =>
    destruct (dispose_all_frame rs w1) as [Hrt Hcb];
    destruct (dispose_all rs w1) as [[] w2]
  end.
  cbn [snd runtime callbacks] in Hrt, Hcb.
  repeat (cbn -[Z.eqb]; try answer); rewrite ?Hcb; reflexivity.
Qed.

Lemma Runtime_Close_disposed (w : World) :
  Runtime.disposed (runtime (snd (Runtime_Close w))) = true.
Proof.
  unfold Runtime_Close. unfold_host.
  destruct (Runtime.disposed (runtime w)) eqn:Hd; [exact Hd|].
  match goal with |- context [dispose_all ?rs ?w1] =>
    destruct (dispose_all_frame rs w1) as [Hrt Hcb];
    destruct (dispose_all rs w1) as [[] w2]
  end.
  cbn [snd runtime callbacks] in Hrt, Hcb.
  repeat (cbn -[Z.eqb]; try answer); rewrite ?Hrt; reflexivity.
Qed.

(** [Realm.Close] on a live Realm removes its handle from the mapping. *)
Lemma Realm_Close_unregisters (w : World) (r : nat) (realm : Realm.t) :
  heap w !! r = Some realm -> Realm.disposed realm = false ->
  CallbackManager.contexts (callbacks (snd (Realm_Close r w)))
    !! Realm.Pointer realm = None.
Proof.
  intros Hh Hd. unfold Realm_Close, Runtime_dropRealm. unfold_host.
  rewrite Hh. cbn [default from_option id]. rewrite Hd.
  match goal with |- context [Realm_dispose r ?w1] =>
    destruct (Realm_dispose_frame r w1) as [_ Hcb];
    destruct (Realm_dispose r w1) as [[] w2]
  end.
  cbn [snd callbacks] in Hcb. cbn. rewrite Hcb. cbn.
  apply lookup_delete_eq.
Qed.

(** [CreateRealm] on a live Runtime registers the new handle. *)
Lemma Runtime_CreateRealm_registers (w : World) :
  Runtime.disposed (runtime w) = false ->
  let '(res, w') := Runtime_CreateRealm w in
  forall r, fst res = Some r ->
    exists realm, heap w' !! r = Some realm /\
      Realm.disposed realm = false /\
      CallbackManager.contexts (callbacks w') !! Realm.Pointer realm
      = Some r.
Proof.
  intros Hd. unfold Runtime_CreateRealm. run; rewrite Hd; cbn -[Z.eqb].
  all: repeat (answer; cbn -[Z.eqb]).
  all: intros r0 [= <-].
  eexists. split; [apply list_lookup_middle; reflexivity|].
  split; [reflexivity|]. cbn. apply lookup_insert_eq.
Qed.

(** A disposed Runtime refuses to create a Realm, and asks the engine
    nothing. *)
Lemma Runtime_CreateRealm_disposed (w : World) :
  Runtime.disposed (runtime w) = true ->
  Runtime_CreateRealm w = ((None, Some "runtime is disposed"%string), w).
Proof.
  intros Hd. unfold Runtime_CreateRealm, mbind, M_bind, gets.
  now rewrite Hd.
Qed.

(** The four other operations of a Runtime do not look at [disposed]:
    each goes to the engine with the runtime handle as it stands. *)
Lemma Runtime_operations_unguarded (w : World) (bytes maxJobs : Z) :
  engine_calls (trace (snd (Runtime_SetMemoryLimit bytes w)))
  = engine_calls (trace w)
      ++ [Registry.RuntimeSetMemoryLimit (Runtime.Pointer (runtime w))
            bytes] /\
  engine_calls (trace (snd (Runtime_RunGC w)))
  = engine_calls (trace w)
      ++ [Registry.RunGC (Runtime.Pointer (runtime w))] /\
  engine_calls (trace (snd (Runtime_IsMicrotaskPending w)))
  = engine_calls (trace w)
      ++ [Registry.IsJobPending (Runtime.Pointer (runtime w))] /\
  engine_calls (trace (snd (Runtime_ExecuteMicrotasks maxJobs w)))
  = engine_calls (trace w)
      ++ [Registry.ExecutePendingJob (Runtime.Pointer (runtime w))
            maxJobs 0].
Proof.
  unfold Runtime_SetMemoryLimit, Runtime_RunGC, Runtime_IsMicrotaskPending,
    Runtime_ExecuteMicrotasks.
  run. cbn [trace]. rewrite !engine_calls_app. repeat split.
Qed.

(** *** More on disposal *)

(** What [dispose] does to a live Realm: the Realm is marked disposed with
    a null handle, and its context is freed through the engine when the
    handle was not null. *)
Lemma Realm_dispose_live (w : World) (r : nat) (realm : Realm.t) :
  heap w !! r = Some realm -> Realm.disposed realm = false ->
  exists w',
    Realm_dispose r w = (tt, w') /\
    heap w' = <[r := {| Realm.Pointer := 0; Realm.disposed := true |}]>
                (heap w) /\
    trace w' = trace w
      ++ (if Realm.Pointer realm =? 0 then []
          else [ECall (Registry.FreeContext (Realm.Pointer realm)) 0]) /\
    runtime w' = runtime w /\ callbacks w' = callbacks w.
Proof.
  intros Hh Hd. unfold Realm_dispose. unfold_host.
  rewrite Hh. cbn [default from_option id]. rewrite Hd.
  destruct (Realm.Pointer realm =? 0) eqn:Hp.
  - apply Z.eqb_eq in Hp. rewrite Hp. cbn.
    eexists. repeat split. cbn. now rewrite app_nil_r.
  - cbn. destruct (entry _ _ _) as [[? ?] ?]. cbn.
    eexists. repeat split. cbn. apply list_insert_insert_eq.
Qed.

Lemma Realm_dispose_disposed (w : World) (r : nat) (realm : Realm.t) :
  heap w !! r = Some realm -> Realm.disposed realm = true ->
  Realm_dispose r w = (tt, w).
Proof.
  intros Hh Hd. unfold Realm_dispose. unfold_host.
  rewrite Hh. cbn [default from_option id]. now rewrite Hd.
Qed.

(** [Realm.Close] on a live Realm, step by step. *)
Lemma Realm_Close_live (w : World) (r : nat) (realm : Realm.t) :
  heap w !! r = Some realm -> Realm.disposed realm = false ->
  exists w',
    Realm_Close r w = (tt, w') /\
    heap w' = <[r := {| Realm.Pointer := 0; Realm.disposed := true |}]>
                (heap w) /\
    callbacks w' = UnregisterContext (Realm.Pointer realm) (callbacks w) /\
    Runtime.realms (runtime w') = delete 0 (Runtime.realms (runtime w)) /\
    (Realm.Pointer realm <> 0 ->
     Runtime.realms (runtime w') !! Realm.Pointer realm
     = Runtime.realms (runtime w) !! Realm.Pointer realm) /\
    Runtime.Pointer (runtime w') = Runtime.Pointer (runtime w) /\
    Runtime.disposed (runtime w') = Runtime.disposed (runtime w) /\
    trace w' = trace w
      ++ (if Realm.Pointer realm =? 0 then []
          else [ECall (Registry.FreeContext (Realm.Pointer realm)) 0]).
Proof.
  intros Hh Hd. unfold Realm_Close, Runtime_dropRealm.
  unfold mbind at 1, M_bind at 1, deref at 1, gets at 1.
  rewrite Hh. cbn [default from_option id]. rewrite Hd.
  unfold mbind at 1, M_bind at 1, gets at 1.
  unfold mbind at 1, M_bind at 1, set_callbacks at 1.
  unfold mbind at 1, M_bind at 1.
  match goal with |- context [Realm_dispose r ?w1] =>
    destruct (Realm_dispose_live w1 r realm Hh Hd)
      as (w2 & -> & Hheap & Htr & Hrt & Hcb)
  end.
  cbn [heap trace runtime callbacks] in Hheap, Htr, Hrt, Hcb.
  unfold_host. rewrite Hheap, Hrt.
  rewrite list_lookup_insert_eq by (eapply lookup_lt_Some; exact Hh).
  cbn. eexists. split; [reflexivity|]. cbn.
  repeat split; try assumption.
  intros Hp. now apply lookup_delete_ne.
Qed.

(** [Realm.Close] on a live Realm: its handle is unregistered from the
    callback manager, the Realm is marked disposed with a null handle,
    its context is freed through the engine when the handle was not null,
    and [dropRealm], reading the handle after [dispose] has reset it,
    deletes the key 0 from the Runtime's map of realms, so that the entry
    under a non-null handle stays. *)
Theorem Realm_Close_effect (w : World) (r : nat) (realm : Realm.t) :
  heap w !! r = Some realm -> Realm.disposed realm = false ->
  let p := Realm.Pointer realm in
  let w' := snd (Realm_Close r w) in
  heap w' !! r = Some {| Realm.Pointer := 0; Realm.disposed := true |} /\
  (forall r', r' <> r -> heap w' !! r' = heap w !! r') /\
  CallbackManager.contexts (callbacks w') !! p = None /\
  callbacks w' = UnregisterContext p (callbacks w) /\
  Runtime.realms (runtime w') = delete 0 (Runtime.realms (runtime w)) /\
  (p <> 0 ->
   Runtime.realms (runtime w') !! p = Runtime.realms (runtime w) !! p) /\
  engine_calls (trace w')
  = engine_calls (trace w)
      ++ (if p =? 0 then [] else [Registry.FreeContext p]).
Proof.
  intros Hh Hd. cbn zeta.
  destruct (Realm_Close_live w r realm Hh Hd)
    as (w' & -> & Hheap & Hcb & Hrl & Hkeep & _ & _ & Htr).
  cbn [snd]. rewrite Hheap, Hcb, Htr, engine_calls_app.
  split; [apply list_lookup_insert_eq; eapply lookup_lt_Some; exact Hh|].
  split; [intros r' Hne; apply list_lookup_insert_ne; congruence|].
  split; [apply lookup_delete_eq|]. split; [reflexivity|].
  split; [exact Hrl|]. split; [exact Hkeep|].
  now destruct (Realm.Pointer realm =? 0).
Qed.

(** [Realm.Close] on a disposed Realm does nothing, so closing twice is
    closing once. *)
Theorem Realm_Close_idempotent (w : World) (r : nat) (realm : Realm.t) :
  heap w !! r = Some realm ->
  Realm_Close r (snd (Realm_Close r w)) = (tt, snd (Realm_Close r w)).
Proof.
  intros Hh.
  assert (Hdone : forall w0 realm0,
            heap w0 !! r = Some realm0 -> Realm.disposed realm0 = true ->
            Realm_Close r w0 = (tt, w0)).
  { intros w0 realm0 Hh0 Hd0. unfold Realm_Close.
    unfold mbind at 1, M_bind at 1, deref at 1, gets at 1.
    rewrite Hh0. cbn [default from_option id]. now rewrite Hd0. }
  destruct (Realm.disposed realm) eqn:Hd.
  - rewrite (Hdone w realm Hh Hd). cbn [snd]. exact (Hdone w realm Hh Hd).
  - destruct (Realm_Close_live w r realm Hh Hd) as (w' & -> & Hheap & _).
    cbn [snd].
    apply (Hdone w' {| Realm.Pointer := 0; Realm.disposed := true |});
      [|reflexivity].
    rewrite Hheap. apply list_lookup_insert_eq.
    eapply lookup_lt_Some; exact Hh.
Qed.

Lemma EvalCode_disposed (w : World) (r : nat) (realm : Realm.t)
  (code : string) (opts : option EvalOptions.t) :
  heap w !! r = Some realm -> Realm.disposed realm = true ->
  Realm_EvalCodeWithOptions r code opts w
  = ((Value.zero, Some "realm is disposed"%string), w).
Proof.
  intros Hh Hd. unfold Realm_EvalCodeWithOptions.
  unfold mbind at 1, M_bind at 1, deref at 1, gets at 1.
  rewrite Hh. cbn [default from_option id]. now rewrite Hd.
Qed.

(** Evaluation on a disposed Realm is refused with the disposal error
    before anything reaches the engine; in particular after
    [Realm.Close]. *)
Theorem EvalCode_after_Close_is_refused
  (w : World) (r : nat) (realm : Realm.t) (code : string)
  (opts : option EvalOptions.t) :
  heap w !! r = Some realm ->
  (Realm.disposed realm = true ->
   Realm_EvalCodeWithOptions r code opts w
   = ((Value.zero, Some "realm is disposed"%string), w)) /\
  (let w' := snd (Realm_Close r w) in
   Realm_EvalCodeWithOptions r code opts w'
   = ((Value.zero, Some "realm is disposed"%string), w')).
Proof.
  intros Hh. split; [now apply EvalCode_disposed|]. cbn zeta.
  destruct (Realm.disposed realm) eqn:Hd.
  - assert (Hc : Realm_Close r w = (tt, w)).
    { unfold Realm_Close.
      unfold mbind at 1, M_bind at 1, deref at 1, gets at 1.
      rewrite Hh. cbn [default from_option id]. now rewrite Hd. }
    rewrite Hc. cbn [snd]. now apply (EvalCode_disposed w r realm).
  - destruct (Realm_Close_live w r realm Hh Hd) as (w' & -> & Hheap & _).
    cbn [snd].
    apply (EvalCode_disposed w' r
             {| Realm.Pointer := 0; Realm.disposed := true |});
      [|reflexivity].
    rewrite Hheap. apply list_lookup_insert_eq.
    eapply lookup_lt_Some; exact Hh.
Qed.

(** [Free] of an owned Value after its Realm was closed is not held back:
    the release entry point is invoked with the null context handle that
    [Close] left in the Realm. *)
Theorem Value_Free_after_Close (w : World) (v : Value.t) (r : nat)
  (realm : Realm.t) :
  Value.realm v = Some r -> heap w !! r = Some realm ->
  Realm.disposed realm = false ->
  Value.ptr v <> 0 -> Value.borrowed v = false ->
  let w1 := snd (Realm_Close r w) in
  engine_calls (trace (snd (Value_Free v w1)))
  = engine_calls (trace w1) ++ [Registry.FreeValuePointer 0 (Value.ptr v)].
Proof.
  intros Hr Hh Hd Hp Hb. cbn zeta.
  destruct (Realm_Close_live w r realm Hh Hd) as (w' & -> & Hheap & _).
  cbn [snd].
  destruct (Value_Free_owned w' v r Hr Hp Hb) as (w2 & -> & Htr & _).
  cbn [snd]. rewrite Htr, engine_calls_app, Hheap.
  rewrite list_lookup_insert_eq by (eapply lookup_lt_Some; exact Hh).
  reflexivity.
Qed.

(** *** Creation and cascade disposal *)

(** [CreateRealm] on a live Runtime asks the engine for one context. On
    a null answer it fails and leaves the host's objects as they were; on
    a non-null answer the new Realm, live and holding that handle, is at
    a fresh address, tracked by the Runtime and registered with the
    callback manager under the handle. *)
Theorem Runtime_CreateRealm_effect (w : World) :
  Runtime.disposed (runtime w) = false ->
  let '(res, w') := Runtime_CreateRealm w in
  exists p,
    trace w' = trace w
      ++ [ECall (Registry.NewContext (Runtime.Pointer (runtime w)) 0) p] /\
    (p = 0 ->
     res = (None, Some "create context: NewContext returned null"%string) /\
     heap w' = heap w /\ runtime w' = runtime w /\
     callbacks w' = callbacks w) /\
    (p <> 0 ->
     res = (Some (length (heap w)), None) /\
     heap w' = heap w
       ++ [{| Realm.Pointer := p; Realm.disposed := false |}] /\
     Runtime.realms (runtime w')
     = <[p := length (heap w)]> (Runtime.realms (runtime w)) /\
     Runtime.Pointer (runtime w') = Runtime.Pointer (runtime w) /\
     Runtime.disposed (runtime w') = false /\
     callbacks w' = RegisterContext p (length (heap w)) (callbacks w)).
Proof.
  intros Hd. unfold Runtime_CreateRealm. unfold_host. rewrite Hd.
  destruct (entry _ _ _) as [[p e] m]. cbn -[Z.eqb].
  destruct (p =? 0) eqn:Hp; cbn.
  - exists p. split; [reflexivity|]. split; [now repeat split|].
    intros Hne. apply Z.eqb_eq in Hp. contradiction.
  - exists p. split; [reflexivity|]. split.
    + intros ->. discriminate.
    + intros _. now repeat split.
Qed.

(** A Realm created and then closed leaves the callback manager as it
    was before the creation, provided the engine's handle was not already
    registered; the Realm stays in the heap, disposed. *)
Theorem CreateRealm_then_Close (w : World) :
  Runtime.disposed (runtime w) = false ->
  let '(res, w1) := Runtime_CreateRealm w in
  forall r realm,
    fst res = Some r -> heap w1 !! r = Some realm ->
    CallbackManager.contexts (callbacks w) !! Realm.Pointer realm = None ->
    callbacks (snd (Realm_Close r w1)) = callbacks w /\
    heap (snd (Realm_Close r w1)) !! r
    = Some {| Realm.Pointer := 0; Realm.disposed := true |}.
Proof.
  intros Hd. unfold Runtime_CreateRealm. unfold_host. rewrite Hd.
  destruct (entry _ _ _) as [[p e] m]. cbn -[Z.eqb].
  destruct (p =? 0) eqn:Hp; cbn -[Z.eqb]; intros r realm Hr Hh Hfresh;
    [discriminate Hr|].
  injection Hr as <-. cbn [heap] in Hh.
  assert (Hrealm : realm = {| Realm.Pointer := p; Realm.disposed := false |}).
  { rewrite list_lookup_middle in Hh by reflexivity. congruence. }
  subst realm. cbn [Realm.Pointer callbacks] in Hfresh.
  match goal with |- context [Realm_Close _ ?w1] =>
    destruct (Realm_Close_live w1 _ _ Hh eq_refl)
      as (w2 & -> & Hheap2 & Hcb2 & _)
  end.
  cbn [snd Realm.Pointer heap callbacks] in *. split.
  - rewrite Hcb2. unfold UnregisterContext, RegisterContext. cbn.
    destruct (callbacks w) as [cs rs]. cbn in *.
    now rewrite delete_insert_id.
  - rewrite Hheap2. apply list_lookup_insert_eq.
    eapply lookup_lt_Some; exact Hh.
Qed.

(** Disposing a Realm keeps the heap's addresses, never revives a
    disposed Realm, and leaves the Realm it is called on disposed. *)
Lemma Realm_dispose_heap (r' : nat) (w : World) (r : nat) (realm : Realm.t) :
  heap w !! r = Some realm ->
  exists realm',
    heap (snd (Realm_dispose r' w)) !! r = Some realm' /\
    (Realm.disposed realm = true -> Realm.disposed realm' = true) /\
    (r = r' -> Realm.disposed realm' = true).
Proof.
  intros Hh. destruct (heap w !! r') as [realm0|] eqn:Hh0.
  - destruct (Realm.disposed realm0) eqn:Hd0.
    + rewrite (Realm_dispose_disposed w r' realm0 Hh0 Hd0). cbn [snd].
      exists realm. split; [exact Hh|]. split; [auto|].
      intros ->. congruence.
    + destruct (Realm_dispose_live w r' realm0 Hh0 Hd0)
        as (w' & -> & Hheap & _).
      cbn [snd]. rewrite Hheap.
      destruct (decide (r = r')) as [->|Hne].
      * eexists. split; [apply list_lookup_insert_eq;
                         eapply lookup_lt_Some; exact Hh|].
        now split.
      * exists realm. rewrite list_lookup_insert_ne by congruence.
        split; [exact Hh|]. split; [auto|]. intros ->. contradiction.
  - assert (Hrun : Realm_dispose r' w = (tt, w)).
    { unfold Realm_dispose. unfold_host. rewrite Hh0. cbn.
      rewrite list_insert_ge by (apply lookup_ge_None; exact Hh0).
      now destruct w. }
    rewrite Hrun. cbn [snd]. exists realm. split; [exact Hh|].
    split; [auto|]. intros ->. congruence.
Qed.

Lemma dispose_all_heap (rs : list (Z * nat)) (w : World) (r : nat)
  (realm : Realm.t) :
  heap w !! r = Some realm ->
  exists realm',
    heap (snd (dispose_all rs w)) !! r = Some realm' /\
    (Realm.disposed realm = true -> Realm.disposed realm' = true) /\
    (r ∈ rs.*2 -> Realm.disposed realm' = true).
Proof.
  revert w realm. induction rs as [|[p r'] rs IH]; intros w realm Hh.
  - exists realm. split; [exact Hh|]. split; [auto|].
    intros Hin. cbn in Hin. now apply elem_of_nil in Hin.
  - cbn [dispose_all]. unfold mbind, M_bind.
    destruct (Realm_dispose_heap r' w r realm Hh) as (realm1 & Hh1 & Hk1 & Hd1).
    destruct (Realm_dispose r' w) as [[] w1]. cbn [snd] in *.
    destruct (IH w1 realm1 Hh1) as (realm2 & Hh2 & Hk2 & Hd2).
    exists realm2. split; [exact Hh2|]. split; [auto|].
    intros Hin. cbn in Hin. apply elem_of_cons in Hin as [->|Hin]; auto.
Qed.

(** [Runtime.Close] on a live Runtime changes the heap of realms by the
    cascade of [dispose] alone. *)
Lemma Runtime_Close_heap (w : World) :
  Runtime.disposed (runtime w) = false ->
  exists w1,
    heap w1 = heap w /\
    heap (snd (Runtime_Close w))
    = heap (snd (dispose_all (map_to_list (Runtime.realms (runtime w))) w1)).
Proof.
  intros Hd. unfold Runtime_Close. unfold_host. rewrite Hd.
  match goal with |- context [dispose_all ?rs ?w1] =>
    exists w1; split; [reflexivity|];
    destruct (dispose_all rs w1) as [[] w2]
  end.
  repeat (cbn -[Z.eqb]; try answer); reflexivity.
Qed.

(** After [Runtime.Close] every Realm the Runtime tracked is disposed:
    evaluation on it is refused with the Realm's disposal error, and
    [CreateRealm] with the Runtime's. *)
Theorem Runtime_Close_disposes_tracked_realms
  (w : World) (p : Z) (r : nat) (realm : Realm.t) (code : string)
  (opts : option EvalOptions.t) :
  Runtime.disposed (runtime w) = false ->
  Runtime.realms (runtime w) !! p = Some r ->
  heap w !! r = Some realm ->
  let w' := snd (Runtime_Close w) in
  (exists realm', heap w' !! r = Some realm' /\
                  Realm.disposed realm' = true) /\
  Realm_EvalCodeWithOptions r code opts w'
  = ((Value.zero, Some "realm is disposed"%string), w') /\
  Runtime_CreateRealm w'
  = ((None, Some "runtime is disposed"%string), w').
Proof.
  intros Hd Hp Hh. cbn zeta.
  destruct (Runtime_Close_heap w Hd) as (w1 & Hh1 & Hheap).
  rewrite <- Hh1 in Hh.
  destruct (dispose_all_heap (map_to_list (Runtime.realms (runtime w)))
              w1 r realm Hh) as (realm' & Hh' & _ & Hdisp).
  rewrite <- Hheap in Hh'.
  assert (Hd' : Realm.disposed realm' = true).
  { apply Hdisp. apply list_elem_of_fmap. exists (p, r).
    split; [reflexivity|]. now apply elem_of_map_to_list. }
  split; [now exists realm'|]. split.
  - now apply (EvalCode_disposed _ r realm').
  - apply Runtime_CreateRealm_disposed, Runtime_Close_disposed.
Qed.

(** [Runtime.Close] on a live Runtime ends with the Runtime disposed, no
    realm tracked, the runtime handle null and, when it was not null,
    unregistered from the callback manager and freed through the engine
    as the last entry point invoked; the result is what closing the
    wazero runtime returns. *)
Theorem Runtime_Close_final_state (w : World) :
  Runtime.disposed (runtime w) = false ->
  let p := Runtime.Pointer (runtime w) in
  let '(err, w') := Runtime_Close w in
  runtime w' = {| Runtime.Pointer := 0; Runtime.realms := ∅;
                  Runtime.disposed := true;
                  Runtime.wazero_closed := true |} /\
  callbacks w'
  = (if p =? 0 then callbacks w else UnregisterRuntime p (callbacks w)) /\
  err = close_error (engine w') /\
  (p <> 0 ->
   exists calls,
     engine_calls (trace w') = calls ++ [Registry.FreeRuntime p]).
Proof.
  intros Hd. cbn zeta. unfold Runtime_Close. unfold_host. rewrite Hd.
  match goal with |- context [dispose_all ?rs ?w1] =>
    destruct (dispose_all_frame rs w1) as [Hrt Hcb];
    destruct (dispose_all rs w1) as [[] w2]
  end.
  cbn [snd runtime callbacks] in Hrt, Hcb.
  cbn -[Z.eqb]. rewrite Hrt. cbn -[Z.eqb].
  destruct (Runtime.Pointer (runtime w) =? 0) eqn:Hp; cbn -[Z.eqb].
  - apply Z.eqb_eq in Hp. rewrite ?Hrt, ?Hcb. cbn. rewrite ?Hp.
    repeat split. intros Hne. contradiction.
  - destruct (entry _ _ _) as [[? ?] ?]. cbn. rewrite ?Hrt, ?Hcb. cbn.
    repeat split. intros _. eexists.
    rewrite engine_calls_app. reflexivity.
Qed.

(** [Runtime.Close] a second time does nothing and returns no error. *)
Theorem Runtime_Close_idempotent (w : World) :
  Runtime_Close (snd (Runtime_Close w)) = (None, snd (Runtime_Close w)).
Proof.
  pose proof (Runtime_Close_disposed w) as Hd.
  unfold Runtime_Close at 1.
  unfold mbind at 1, M_bind at 1, gets at 1. now rewrite Hd.
Qed.

(** *** More on evaluation and strings *)


(** Symbolic execution of an evaluation down to the engine's answers. *)
Ltac eval_paths Hh Hd :=
  unfold Realm_EvalCodeWithOptions; unfold_host;
  cbn -[Z.eqb int32 len list_byte_of_string Memory.WriteBytes
        Memory.ReadString eval_options];
  rewrite Hh; cbn [default from_option id]; rewrite Hd;
  repeat (answer;
    cbn -[Z.eqb int32 len list_byte_of_string Memory.WriteBytes
          Memory.ReadString eval_options];
    rewrite ?Hh, ?Z.eqb_refl; cbn [default from_option id]);
  rewrite <- ?app_assoc; eexists; (split; [reflexivity|]).

(** An evaluation during which an allocation fails (the engine answers
    null to a [Malloc]) never reaches the evaluation entry point: either
    the code string could not be allocated, and that [Malloc] is all that
    happened, or the file name could not, and the code string allocated
    before is freed; the zero Value comes back with the matching error. *)
Theorem EvalCode_allocation_failure
  (w : World) (r : nat) (realm : Realm.t) (code : string)
  (opts : option EvalOptions.t) :
  heap w !! r = Some realm -> Realm.disposed realm = false ->
  let ctx := Realm.Pointer realm in
  let filename := EvalOptions.Filename (eval_options opts) in
  let n1 := int32 (len (list_byte_of_string code) + 1) in
  let n2 := int32 (len (list_byte_of_string filename) + 1) in
  let '(v, err, w') := Realm_EvalCodeWithOptions r code opts w in
  exists evs,
    trace w' = trace w ++ evs /\
    forall c n, ECall (Registry.Malloc c n) 0 ∈ evs ->
      v = Value.zero /\
      ((evs = [ECall (Registry.Malloc ctx n1) 0] /\
        err = Some "failed to allocate code string"%string) \/
       (exists codePtr ok,
          codePtr <> 0 /\
          evs = [ECall (Registry.Malloc ctx n1) codePtr;
                 EWrite codePtr (list_byte_of_string code ++ [x00]) ok;
                 ECall (Registry.Malloc ctx n2) 0;
                 ECall (Registry.Free ctx codePtr) 0] /\
          err = Some "failed to allocate filename string"%string)).
Proof.
  intros Hh Hd. cbn zeta. eval_paths Hh Hd.
  all: intros c n Hin; set_unfold in Hin; destruct_or?; simplify_eq.
  all: repeat match goal with
              | H : (_ =? 0) = false |- _ => apply Z.eqb_neq in H
              | H : (_ =? 0) = true |- _ => apply Z.eqb_eq in H
              end;
       try contradiction; try lia.
  all: split; [reflexivity|].
  all: first [ left; split; reflexivity
             | right; eexists _, _; repeat split; eassumption ].
Qed.

(** An evaluation after which the engine reports no exception (a null
    answer to [GetLastError]) returns, without error, the owned Value of
    the handle [Eval] answered; both strings were allocated, and are
    freed, the file name first, after the query. *)
Theorem EvalCode_success
  (w : World) (r : nat) (realm : Realm.t) (code : string)
  (opts : option EvalOptions.t) :
  heap w !! r = Some realm -> Realm.disposed realm = false ->
  let ctx := Realm.Pointer realm in
  let o := eval_options opts in
  let filename := EvalOptions.Filename o in
  let '(v, err, w') := Realm_EvalCodeWithOptions r code opts w in
  exists evs,
    trace w' = trace w ++ evs /\
    forall resultPtr,
      ECall (Registry.GetLastError ctx resultPtr) 0 ∈ evs ->
      exists codePtr filenamePtr ok1 ok2,
        codePtr <> 0 /\ filenamePtr <> 0 /\
        evs = [ECall (Registry.Malloc ctx
                        (int32 (len (list_byte_of_string code) + 1)))
                 codePtr;
               EWrite codePtr (list_byte_of_string code ++ [x00]) ok1;
               ECall (Registry.Malloc ctx
                        (int32 (len (list_byte_of_string filename) + 1)))
                 filenamePtr;
               EWrite filenamePtr (list_byte_of_string filename ++ [x00])
                 ok2;
               ECall (Registry.Eval ctx (int32 codePtr)
                        (int32 (len (list_byte_of_string code)))
                        (int32 filenamePtr)
                        (if EvalOptions.DetectModule o then 1 else 0) 0)
                 resultPtr;
               ECall (Registry.GetLastError ctx resultPtr) 0;
               ECall (Registry.Free ctx filenamePtr) 0;
               ECall (Registry.Free ctx codePtr) 0] /\
        v = {| Value.realm := Some r; Value.ptr := resultPtr;
               Value.borrowed := false |} /\
        err = None.
Proof.
  intros Hh Hd. cbn zeta. eval_paths Hh Hd.
  all: intros resultPtr Hin; set_unfold in Hin; destruct_or?; simplify_eq.
  all: repeat match goal with
              | H : (_ =? 0) = false |- _ => apply Z.eqb_neq in H
              | H : (_ =? 0) = true |- _ => apply Z.eqb_eq in H
              end;
       try contradiction; try lia.
  all: eexists _, _, _, _; repeat split; eassumption.
Qed.

(** [Value.String] of a Value with a Realm asks the engine for the C
    string of the handle; on a null answer it returns the empty string
    and does nothing more, otherwise it reads the string at that offset
    and frees the C string, once; nothing is left acquired. The zero
    Value gives the empty string without any call. *)
Theorem Value_String_frees_the_CString
  (w : World) (v : Value.t) (r : nat) (realm : Realm.t) :
  Value.realm v = Some r -> heap w !! r = Some realm ->
  let ctx := Realm.Pointer realm in
  let '(s, w') := Value_String v w in
  exists strPtr ok evs,
    trace w' = trace w ++ evs /\
    evs = ECall (Registry.ToCString ctx (Value.ptr v)) strPtr
          :: (if strPtr =? 0 then []
              else [EReadString strPtr s ok;
                    ECall (Registry.FreeCString ctx strPtr) 0]) /\
    (strPtr = 0 -> s = EmptyString) /\
    no_leak evs [] /\
    heap w' = heap w /\
    Value_String Value.zero w = (EmptyString, w).
Proof.
  intros Hr Hh. cbn zeta. unfold Value_String at 1. rewrite Hr.
  unfold_host. rewrite Hh. cbn -[Z.eqb].
  destruct (entry _ _ _) as [[sp e] m]. cbn -[Z.eqb].
  destruct (sp =? 0) eqn:Hsp; cbn -[Z.eqb].
  - exists sp, true. eexists. split; [reflexivity|].
    rewrite Hsp. repeat split.
    unfold no_leak. cbn -[Z.eqb]. now rewrite Hsp.
  - cbn -[Z.eqb Memory.ReadString].
    destruct (Memory.ReadString m sp) as [s ok]. cbn -[Z.eqb].
    rewrite Hh. cbn -[Z.eqb]. destruct (entry _ _ _) as [[? ?] ?].
    cbn -[Z.eqb]. exists sp, ok. eexists.
    rewrite <- !app_assoc. split; [reflexivity|]. rewrite Hsp.
    split; [reflexivity|]. split.
    + intros ->. discriminate.
    + split; [|now split]. unfold no_leak. cbn -[Z.eqb]. now rewrite Hsp.
Qed.

(** [AllocateString] asks the engine for the length of the string plus
    one byte. On a null answer it returns a null offset and length 0
    and writes nothing. On a non-null answer it returns that offset and
    the length of the string, and a string without zero byte, placed
    inside a buffer shorter than 4 GiB, is what
    [ReadNullTerminatedString] reads back at the offset. *)
Theorem AllocateString_then_read (w : World) (ctxPtr : Z) (s : string) :
  let '(ptr, n, w1) := AllocateString ctxPtr s w in
  let size := int32 (len (list_byte_of_string s) + 1) in
  (ptr = 0 ->
   n = 0 /\ trace w1 = trace w ++ [ECall (Registry.Malloc ctxPtr size) 0]) /\
  (ptr <> 0 ->
   n = len (list_byte_of_string s) /\
   exists ok,
     trace w1 = trace w
       ++ [ECall (Registry.Malloc ctxPtr size) ptr;
           EWrite ptr (list_byte_of_string s ++ [x00]) ok] /\
     (len (memory w1) < 2 ^ 32 ->
      uint32 ptr + len (list_byte_of_string s) + 1 <= len (memory w1) ->
      Forall (fun b => b <> x00) (list_byte_of_string s) ->
      ok = true /\ fst (ReadNullTerminatedString ptr w1) = s)).
Proof.
  unfold AllocateString. unfold_host.
  destruct (entry _ _ _) as [[ptr e] m]. cbn -[Z.eqb Memory.WriteBytes].
  destruct (ptr =? 0) eqn:Hp; cbn -[Z.eqb Memory.WriteBytes].
  - apply Z.eqb_eq in Hp. subst ptr. split; [now split|].
    intros Hne. contradiction.
  - destruct (Memory.WriteBytes m ptr _) as [m1 ok] eqn:Hw.
    cbn -[Z.eqb Memory.ReadString]. split.
    + intros ->. discriminate.
    + intros _. split; [reflexivity|]. exists ok.
      rewrite <- !app_assoc. split; [reflexivity|].
      intros Hlen Hin Hnz. rewrite Hp.
      unfold Memory.WriteBytes in Hw.
      assert (Hm1 : m1 = fst (Memory.Write m (uint32 ptr)
                                (list_byte_of_string s ++ [x00])))
        by now rewrite Hw.
      assert (Hok : ok = snd (Memory.Write m (uint32 ptr)
                                (list_byte_of_string s ++ [x00])))
        by now rewrite Hw.
      assert (Hlm : length m1 = length m)
        by (rewrite Hm1; apply Write_length, uint32_range).
      unfold len in Hlen, Hin. rewrite Hlm in Hlen, Hin.
      destruct (ReadString_after_terminated_Write m ptr
                  (list_byte_of_string s) Hlen Hin Hnz) as [Hs Hrd].
      split; [congruence|].
      cbn -[Memory.ReadString]. rewrite Hm1, Hrd.
      cbn [fst]. apply string_of_list_byte_of_string.
Qed.

(** [NewString] does not test the allocation: the engine's [NewString]
    is invoked with the offset [Malloc] answered, null included, and the
    memory is freed after it when the offset is not null. Nothing leaks:
    what was acquired is released, but for the owned Value returned. *)
Theorem NewString_allocation_unchecked
  (w : World) (r : nat) (realm : Realm.t) (s : string) :
  heap w !! r = Some realm ->
  let ctx := Realm.Pointer realm in
  let '(v, w') := Realm_NewString r s w in
  exists strPtr evs,
    trace w' = trace w ++ evs /\
    engine_calls evs
    = Registry.Malloc ctx (int32 (len (list_byte_of_string s) + 1))
      :: Registry.NewString ctx (int32 strPtr)
      :: (if strPtr =? 0 then [] else [Registry.Free ctx strPtr]) /\
    ECall (Registry.Malloc ctx (int32 (len (list_byte_of_string s) + 1)))
      strPtr ∈ evs /\
    ECall (Registry.NewString ctx (int32 strPtr)) (Value.ptr v) ∈ evs /\
    Value.realm v = Some r /\ Value.borrowed v = false /\
    no_leak evs (handed_over v).
Proof.
  intros Hh. cbn zeta. unfold Realm_NewString. unfold_host.
  rewrite Hh. cbn -[Z.eqb int32 len list_byte_of_string Memory.WriteBytes].
  repeat (answer;
    cbn -[Z.eqb int32 len list_byte_of_string Memory.WriteBytes];
    rewrite ?Hh, ?Z.eqb_refl; cbn [default from_option id]).
  all: rewrite <- ?app_assoc.
  all: repeat match goal with
              | H : (?x =? 0) = true |- _ => apply Z.eqb_eq in H; subst x
              end.
  all: match goal with
       | H : entry (Registry.Malloc _ _) _ _ = (?sp, _, _) |- _ =>
           exists sp
       end; eexists; (split; [reflexivity|]).
  all: repeat match goal with
              | H : (_ =? 0) = _ |- _ => rewrite H
              end; rewrite ?Z.eqb_refl.
  all: split; [reflexivity|].
  all: split; [set_solver|]. all: split; [set_solver|].
  all: do 2 (split; [reflexivity|]).
  all: unfold no_leak, handed_over;
       cbn -[Z.eqb int32 len list_byte_of_string];
       repeat match goal with
              | H : (_ =? 0) = _ |- _ => rewrite H
              end;
       rewrite ?Z.eqb_refl, ?orb_true_r, ?orb_false_r; repeat case_match;
       cbn; solve_Permutation.
Qed.

(** *** What the cascade asks of the engine *)

(** A Realm still live after the disposal of another was live, and the
    same, before. *)
Lemma Realm_dispose_live_back (r' : nat) (w : World) (r : nat)
  (realm : Realm.t) :
  heap (snd (Realm_dispose r' w)) !! r = Some realm ->
  Realm.disposed realm = false ->
  heap w !! r = Some realm /\ r <> r'.
Proof.
  intros Hh Hd. destruct (heap w !! r') as [realm0|] eqn:Hh0.
  - destruct (Realm.disposed realm0) eqn:Hd0.
    + rewrite (Realm_dispose_disposed w r' realm0 Hh0 Hd0) in Hh.
      cbn [snd] in Hh. split; [exact Hh|]. intros ->. congruence.
    + destruct (Realm_dispose_live w r' realm0 Hh0 Hd0)
        as (w' & Hrun & Hheap & _).
      rewrite Hrun in Hh. cbn [snd] in Hh. rewrite Hheap in Hh.
      destruct (decide (r = r')) as [->|Hne].
      * rewrite list_lookup_insert_eq in Hh
          by (eapply lookup_lt_Some; exact Hh0).
        injection Hh as <-. discriminate.
      * rewrite list_lookup_insert_ne in Hh by congruence. now split.
  - assert (Hrun : Realm_dispose r' w = (tt, w)).
    { unfold Realm_dispose. unfold_host. rewrite Hh0. cbn.
      rewrite list_insert_ge by (apply lookup_ge_None; exact Hh0).
      now destruct w. }
    rewrite Hrun in Hh. cbn [snd] in Hh. split; [exact Hh|].
    intros ->. congruence.
Qed.

(** The disposal of a Realm leaves the other Realms as they are. *)
Lemma Realm_dispose_other (r' : nat) (w : World) (r : nat) :
  r <> r' -> heap (snd (Realm_dispose r' w)) !! r = heap w !! r.
Proof.
  intros Hne. destruct (heap w !! r') as [realm0|] eqn:Hh0.
  - destruct (Realm.disposed realm0) eqn:Hd0.
    + now rewrite (Realm_dispose_disposed w r' realm0 Hh0 Hd0).
    + destruct (Realm_dispose_live w r' realm0 Hh0 Hd0)
        as (w' & -> & Hheap & _).
      cbn [snd]. rewrite Hheap. apply list_lookup_insert_ne. congruence.
  - assert (Hrun : Realm_dispose r' w = (tt, w)).
    { unfold Realm_dispose. unfold_host. rewrite Hh0. cbn.
      rewrite list_insert_ge by (apply lookup_ge_None; exact Hh0).
      now destruct w. }
    now rewrite Hrun.
Qed.

(** The entry points one [dispose] invokes: [FreeContext] on the handle
    of a live Realm with a non-null handle, and nothing otherwise. *)
Lemma Realm_dispose_calls (r : nat) (w : World) :
  exists evs,
    trace (snd (Realm_dispose r w)) = trace w ++ evs /\
    forall c, c ∈ engine_calls evs <->
      exists realm, heap w !! r = Some realm /\
        Realm.disposed realm = false /\ Realm.Pointer realm <> 0 /\
        c = Registry.FreeContext (Realm.Pointer realm).
Proof.
  destruct (heap w !! r) as [realm|] eqn:Hh.
  - destruct (Realm.disposed realm) eqn:Hd.
    + rewrite (Realm_dispose_disposed w r realm Hh Hd). cbn [snd].
      exists []. split; [now rewrite app_nil_r|].
      intros c. cbn. split; [intros Hin; now apply elem_of_nil in Hin|].
      intros (realm' & [= <-] & Hd' & _). congruence.
    + destruct (Realm_dispose_live w r realm Hh Hd)
        as (w' & -> & _ & Htr & _).
      cbn [snd]. eexists. split; [exact Htr|]. intros c.
      destruct (Realm.Pointer realm =? 0) eqn:Hp; cbn.
      * apply Z.eqb_eq in Hp.
        split; [intros Hin; now apply elem_of_nil in Hin|].
        intros (realm' & [= <-] & _ & Hne & _). contradiction.
      * apply Z.eqb_neq in Hp. rewrite list_elem_of_singleton.
        split.
        -- intros ->. now exists realm.
        -- now intros (realm' & [= <-] & _ & _ & ->).
  - assert (Hrun : Realm_dispose r w = (tt, w)).
    { unfold Realm_dispose. unfold_host. rewrite Hh. cbn.
      rewrite list_insert_ge by (apply lookup_ge_None; exact Hh).
      now destruct w. }
    rewrite Hrun. cbn [snd]. exists []. split; [now rewrite app_nil_r|].
    intros c. cbn. split; [intros Hin; now apply elem_of_nil in Hin|].
    now intros (realm' & [=] & _).
Qed.

Lemma dispose_all_calls (rs : list (Z * nat)) (w : World) :
  exists evs,
    trace (snd (dispose_all rs w)) = trace w ++ evs /\
    forall c, c ∈ engine_calls evs <->
      exists r realm, r ∈ rs.*2 /\ heap w !! r = Some realm /\
        Realm.disposed realm = false /\ Realm.Pointer realm <> 0 /\
        c = Registry.FreeContext (Realm.Pointer realm).
Proof.
  revert w. induction rs as [|[k r'] rs IH]; intros w.
  - exists []. split; [cbn; now rewrite app_nil_r|]. intros c. cbn.
    split; [intros Hin; now apply elem_of_nil in Hin|].
    intros (r & realm & Hin & _). now apply elem_of_nil in Hin.
  - cbn [dispose_all]. unfold mbind, M_bind.
    destruct (Realm_dispose_calls r' w) as (evs1 & Htr1 & Hc1).
    pose proof (Realm_dispose_live_back r' w) as Hback.
    pose proof (Realm_dispose_other r' w) as Hother.
    destruct (Realm_dispose r' w) as [[] w1]. cbn [snd] in *.
    destruct (IH w1) as (evs2 & Htr2 & Hc2).
    exists (evs1 ++ evs2). split; [now rewrite Htr2, Htr1, app_assoc|].
    intros c. rewrite engine_calls_app, elem_of_app, Hc1, Hc2. cbn.
    split.
    + intros [(realm & Hh & Hd & Hp & ->)
             | (r & realm & Hin & Hh & Hd & Hp & ->)].
      * exists r', realm. rewrite elem_of_cons. auto.
      * destruct (Hback r realm Hh Hd) as [Hh0 _].
        exists r, realm. rewrite elem_of_cons. auto.
    + intros (r & realm & Hin & Hh & Hd & Hp & ->).
      destruct (decide (r = r')) as [->|Hne]; [left; now exists realm|].
      right. apply elem_of_cons in Hin as [->|Hin]; [contradiction|].
      exists r, realm. split; [exact Hin|].
      rewrite (Hother r Hne). auto.
Qed.

(** What [Runtime.Close] on a live Runtime asks of the engine: the
    contexts freed are exactly those of the Realms it tracks that are
    live with a non-null handle (a Realm already disposed is not freed
    again), and the only other entry point invoked is [FreeRuntime] on
    the runtime handle, when that is not null. *)
Theorem Runtime_Close_engine_calls (w : World) :
  Runtime.disposed (runtime w) = false ->
  exists evs,
    trace (snd (Runtime_Close w)) = trace w ++ evs /\
    forall c, c ∈ engine_calls evs <->
      (exists p r realm,
         Runtime.realms (runtime w) !! p = Some r /\
         heap w !! r = Some realm /\
         Realm.disposed realm = false /\ Realm.Pointer realm <> 0 /\
         c = Registry.FreeContext (Realm.Pointer realm)) \/
      (Runtime.Pointer (runtime w) <> 0 /\
       c = Registry.FreeRuntime (Runtime.Pointer (runtime w))).
Proof.
  intros Hd. unfold Runtime_Close. unfold_host. rewrite Hd.
  match goal with |- context [dispose_all ?rs ?w1] =>
    destruct (dispose_all_calls rs w1) as (evs1 & Htr1 & Hc1);
    destruct (dispose_all_frame rs w1) as [Hrt _];
    destruct (dispose_all rs w1) as [[] w2]
  end.
  cbn [snd trace heap runtime] in Htr1, Hc1, Hrt.
  assert (Htracked : forall c,
    c ∈ engine_calls evs1 <->
    exists p r realm,
      Runtime.realms (runtime w) !! p = Some r /\
      heap w !! r = Some realm /\
      Realm.disposed realm = false /\ Realm.Pointer realm <> 0 /\
      c = Registry.FreeContext (Realm.Pointer realm)).
  { intros c. rewrite Hc1. split.
    - intros (r & realm & Hin & Hrest).
      apply list_elem_of_fmap in Hin as ([p r0] & -> & Hin).
      apply elem_of_map_to_list in Hin. now exists p, r0, realm.
    - intros (p & r & realm & Hp & Hrest). exists r, realm.
      split; [|exact Hrest]. apply list_elem_of_fmap. exists (p, r).
      split; [reflexivity|]. now apply elem_of_map_to_list. }
  cbn -[Z.eqb]. rewrite Hrt. cbn -[Z.eqb].
  destruct (Runtime.Pointer (runtime w) =? 0) eqn:Hp; cbn -[Z.eqb].
  - apply Z.eqb_eq in Hp. exists evs1. split; [exact Htr1|].
    intros c. rewrite Htracked. split; [auto|].
    intros [H | [Hne _]]; [exact H | contradiction].
  - apply Z.eqb_neq in Hp. destruct (entry _ _ _) as [[? ?] ?]. cbn.
    eexists. split; [rewrite Htr1, <- app_assoc; reflexivity|].
    intros c. rewrite engine_calls_app, elem_of_app, Htracked. cbn.
    rewrite list_elem_of_singleton. split.
    + intros [H | ->]; auto.
    + intros [H | [_ ->]]; auto.
Qed.

End HostProperties.

(** ** The host run against the small engine *)

(** C1, as the claim states it, fails: on an owned, non-null, not borrowed
    Value the second [Free] invokes the engine's release entry point
    again, so it is invoked twice, not at most once. *)
Lemma Value_Free_twice_releases_twice :
  let w := toy_realm_world false in
  heap w !! 0%nat = Some toy_realm /\
  Value.realm toy_value = Some 0%nat /\ Value.ptr toy_value <> 0 /\
  Value.borrowed toy_value = false /\
  engine_calls (trace (snd (Value_Free_times 2 toy_value w)))
  = engine_calls (trace w)
      ++ [Registry.FreeValuePointer 16 48; Registry.FreeValuePointer 16 48] /\
  release_count 48 (trace (snd (Value_Free_times 2 toy_value w))) = 2%nat /\
  ~ (release_count 48 (trace (snd (Value_Free_times 2 toy_value w))) <= 1)%nat.
Proof.
  cbn zeta. repeat split; try reflexivity.
  - discriminate.
  - vm_compute. lia.
Qed.

(** Three calls of [Free] on the owned Value: three releases. *)
Lemma Value_Free_releases_on_every_call_witness :
  release_count (Value.ptr toy_value)
    (trace (snd (Value_Free_times 3 toy_value (toy_realm_world false))))
  = 3%nat.
Proof.
  assert (Hp : Value.ptr toy_value <> 0) by discriminate.
  destruct (@Value_Free_releases_on_every_call (toy false)
              (toy_realm_world false) toy_value 0 toy_realm 3
              eq_refl eq_refl Hp eq_refl) as [_ H].
  rewrite H. reflexivity.
Defined.

(** C10, as the claim states it, fails: on the engine that answers the
    null handle to the duplicate entry point, the duplicate of the
    borrowed undefined Value of the live realm is not borrowed, and
    [Free] on it does not invoke the release entry point: the world,
    and with it the trace of engine calls, is as before. *)
Lemma Value_Free_of_null_duplicate_releases_nothing :
  let w := toy_nodup_world in
  let '(u, wu) := @Realm_Undefined toy_nodup 0 w in
  let '(d, wd) := Value_Dup u wu in
  heap w !! 0%nat = Some toy_realm /\
  u = {| Value.realm := Some 0%nat; Value.ptr := 1;
         Value.borrowed := true |} /\
  d = {| Value.realm := Some 0%nat; Value.ptr := 0;
         Value.borrowed := false |} /\
  engine_calls (trace wd)
  = engine_calls (trace w)
      ++ [Registry.GetUndefined; Registry.DupValuePointer 16 1] /\
  Value_Free d wd = (tt, wd) /\
  engine_calls (trace (snd (Value_Free d wd))) = engine_calls (trace wd) /\
  ~ In (Registry.FreeValuePointer 16 0)
       (engine_calls (trace (snd (Value_Free d wd)))).
Proof.
  cbn zeta. vm_compute.
  repeat split; intros H; repeat (destruct H as [H|H]; try discriminate H);
    exact H.
Qed.

(** The duplicate of the borrowed undefined Value (handle 1) is owned, and
    [Free] on it invokes the release entry point. *)
Lemma Value_Dup_is_owned_witness :
  let u := {| Value.realm := Some 0%nat; Value.ptr := 1;
              Value.borrowed := true |} in
  let '(d, wd) := @Value_Dup (toy false) u (toy_realm_world false) in
  Value.borrowed d = false /\
  engine_calls (trace (snd (Value_Free d wd)))
  = engine_calls (trace wd) ++ [Registry.FreeValuePointer 16 (Value.ptr d)].
Proof.
  cbn zeta.
  pose proof (@Value_Dup_is_owned (toy false) (toy_realm_world false)
                {| Value.realm := Some 0%nat; Value.ptr := 1;
                   Value.borrowed := true |} 0 toy_realm
                eq_refl eq_refl) as H.
  assert (Hp : Value.ptr (fst (@Value_Dup (toy false)
                 {| Value.realm := Some 0%nat; Value.ptr := 1;
                    Value.borrowed := true |} (toy_realm_world false)))
               <> 0) by (vm_compute; discriminate).
  destruct (Value_Dup _ _) as [d wd].
  destruct H as (Hb & _ & _ & Hfree & _).
  split; [exact Hb|]. apply Hfree. exact Hp.
Defined.

(** The empty source on the live realm gives the borrowed Value of
    realm 0 whose handle is the engine's undefined, 1, and no error. *)
Lemma EvalCode_empty_source_is_undefined_witness :
  fst (@Realm_EvalCode (toy false) 0 "" (toy_realm_world false))
  = ({| Value.realm := Some 0%nat; Value.ptr := 1; Value.borrowed := true |},
     None).
Proof.
  pose proof (@EvalCode_empty_source_is_undefined (toy false)
                (toy_realm_world false) 0 toy_realm None
                eq_refl eq_refl) as H.
  destruct (Realm_Undefined _ _) as [u wu].
  destruct H as (_ & -> & _ & _ & H).
  assert (He : exists e m,
             @entry (toy false) Registry.GetUndefined
               (engine (toy_realm_world false))
               (memory (toy_realm_world false)) = (1, e, m))
    by (eexists _, _; vm_compute; reflexivity).
  destruct He as (e & m & He). rewrite He in H.
  destruct H as [-> _]. reflexivity.
Defined.


(** C3 on the small engine: after [Close], [CreateRealm] alone is
    rejected with the disposal error; [SetMemoryLimit], [RunGC],
    [IsMicrotaskPending] and [ExecuteMicrotasks] return nothing of the
    kind and each invokes its entry point, with the runtime handle that
    [Close] has reset to null. *)
Theorem Runtime_use_after_Close_reaches_engine :
  let w := snd (@Runtime_Close (toy false) (toy_realm_world false)) in
  Runtime.disposed (runtime w) = true /\
  Runtime_CreateRealm w = ((None, Some "runtime is disposed"%string), w) /\
  engine_calls (trace (snd (Runtime_SetMemoryLimit 1024 w)))
  = engine_calls (trace w) ++ [Registry.RuntimeSetMemoryLimit 0 1024] /\
  engine_calls (trace (snd (Runtime_RunGC w)))
  = engine_calls (trace w) ++ [Registry.RunGC 0] /\
  engine_calls (trace (snd (Runtime_IsMicrotaskPending w)))
  = engine_calls (trace w) ++ [Registry.IsJobPending 0] /\
  engine_calls (trace (snd (Runtime_ExecuteMicrotasks (-1) w)))
  = engine_calls (trace w) ++ [Registry.ExecutePendingJob 0 (-1) 0].
Proof.
  cbn zeta. split; [vm_compute; reflexivity|].
  split; [apply Runtime_CreateRealm_disposed; vm_compute; reflexivity|].
  apply Runtime_operations_unguarded.
Qed.

(** C4 on the small engine: a Realm is created, and its handle 16 is
    registered; the Runtime is closed, which disposes the Realm and frees
    its context, and the handle still resolves to the disposed Realm in
    the callback manager's mapping. Closing the Realm itself removes it. *)
Theorem Runtime_Close_leaves_context_registered :
  let w1 := toy_realm_world false in
  let w2 := snd (@Runtime_Close (toy false) w1) in
  heap w1 !! 0%nat = Some toy_realm /\
  CallbackManager.contexts (callbacks w1) !! 16 = Some 0%nat /\
  heap w2 !! 0%nat = Some {| Realm.Pointer := 0; Realm.disposed := true |} /\
  engine_calls (trace w2)
  = engine_calls (trace w1)
      ++ [Registry.FreeContext 16; Registry.FreeRuntime 8] /\
  CallbackManager.contexts (callbacks w2) !! 16 = Some 0%nat /\
  CallbackManager.contexts (callbacks (snd (Realm_Close 0 w1))) !! 16 = None.
Proof.
  cbn zeta. do 5 (split; [vm_compute; reflexivity|]).
  vm_compute; reflexivity.
Qed.

(** ** Further runs against the small engine *)

(** A write past the end of a one-byte buffer. *)
Lemma writes_preserve_size_witness :
  fst (Memory.WriteBytes [x01] 5 [x02]) = [x01].
Proof.
  destruct (writes_preserve_size [x01] 5 0 [x02] "" NewCallbackManager
              0 0 0 0) as (_ & _ & _ & _ & H).
  apply H. reflexivity.
Defined.


(** The realm at address 0, closed: its handle 16 no longer resolves, and
    the Runtime still tracks it under 16. *)
Lemma Realm_Close_effect_witness :
  let w' := snd (@Realm_Close (toy false) 0 (toy_realm_world false)) in
  CallbackManager.contexts (callbacks w') !! 16 = None /\
  Runtime.realms (runtime w') !! 16 = Some 0%nat.
Proof.
  cbn zeta.
  pose proof (@Realm_Close_effect (toy false) (toy_realm_world false) 0
                toy_realm eq_refl eq_refl) as H.
  cbn zeta in H. destruct H as (_ & _ & Hctx & _ & _ & Hkeep & _).
  split; [exact Hctx|].
  change 16 with (Realm.Pointer toy_realm).
  rewrite Hkeep by discriminate. reflexivity.
Defined.

Lemma Realm_Close_idempotent_witness :
  @Realm_Close (toy false) 0
    (snd (@Realm_Close (toy false) 0 (toy_realm_world false)))
  = (tt, snd (@Realm_Close (toy false) 0 (toy_realm_world false))).
Proof.
  exact (@Realm_Close_idempotent (toy false) (toy_realm_world false) 0
           toy_realm eq_refl).
Defined.

Lemma EvalCode_after_Close_is_refused_witness :
  let w' := snd (@Realm_Close (toy false) 0 (toy_realm_world false)) in
  Realm_EvalCodeWithOptions 0 "1" None w'
  = ((Value.zero, Some "realm is disposed"%string), w').
Proof.
  exact (proj2 (@EvalCode_after_Close_is_refused (toy false)
                  (toy_realm_world false) 0 toy_realm "1" None eq_refl)).
Defined.

Lemma Value_Free_after_Close_witness :
  let w1 := snd (@Realm_Close (toy false) 0 (toy_realm_world false)) in
  engine_calls (trace (snd (Value_Free toy_value w1)))
  = engine_calls (trace w1)
      ++ [Registry.FreeValuePointer 0 (Value.ptr toy_value)].
Proof.
  assert (Hp : Value.ptr toy_value <> 0) by discriminate.
  exact (@Value_Free_after_Close (toy false) (toy_realm_world false)
           toy_value 0 toy_realm eq_refl eq_refl eq_refl Hp eq_refl).
Defined.

(** The first Realm of a fresh Runtime is at address 0. *)
Lemma Runtime_CreateRealm_effect_witness :
  fst (@Runtime_CreateRealm (toy false) (toy_world false))
  = (Some 0%nat, None).
Proof.
  pose proof (@Runtime_CreateRealm_effect (toy false) (toy_world false)
                eq_refl) as H.
  assert (Ht : trace (snd (@Runtime_CreateRealm (toy false)
                             (toy_world false)))
               = [] ++ [ECall (Registry.NewContext 8 0) 16])
    by reflexivity.
  destruct (Runtime_CreateRealm _) as [res w'].
  destruct H as (p & Htr & _ & Hok). cbn [fst snd] in *.
  change (trace (toy_world false)) with (@nil Event) in Htr.
  rewrite Htr in Ht. apply app_inv_head in Ht. injection Ht as ->.
  destruct Hok as (-> & _); [discriminate|]. reflexivity.
Defined.

Lemma CreateRealm_then_Close_witness :
  callbacks (snd (@Realm_Close (toy false) 0 (toy_realm_world false)))
  = callbacks (toy_world false).
Proof.
  pose proof (@CreateRealm_then_Close (toy false) (toy_world false)
                eq_refl) as H.
  unfold toy_realm_world.
  assert (A1 : fst (fst (@Runtime_CreateRealm (toy false)
                           (toy_world false))) = Some 0%nat)
    by reflexivity.
  assert (A2 : heap (snd (@Runtime_CreateRealm (toy false)
                            (toy_world false))) !! 0%nat = Some toy_realm)
    by reflexivity.
  destruct (Runtime_CreateRealm _) as [res w1]. cbn [fst snd] in *.
  destruct (H 0%nat toy_realm A1 A2) as [Hcb _]; [reflexivity|].
  exact Hcb.
Defined.

Lemma Runtime_Close_disposes_tracked_realms_witness :
  let w' := snd (@Runtime_Close (toy false) (toy_realm_world false)) in
  Realm_EvalCodeWithOptions 0 "1" None w'
  = ((Value.zero, Some "realm is disposed"%string), w').
Proof.
  destruct (@Runtime_Close_disposes_tracked_realms (toy false)
              (toy_realm_world false) 16 0 toy_realm "1" None
              eq_refl eq_refl eq_refl) as (_ & H & _).
  exact H.
Defined.

Lemma Runtime_Close_final_state_witness :
  runtime (snd (@Runtime_Close (toy false) (toy_realm_world false)))
  = {| Runtime.Pointer := 0; Runtime.realms := ∅;
       Runtime.disposed := true; Runtime.wazero_closed := true |}.
Proof.
  pose proof (@Runtime_Close_final_state (toy false)
                (toy_realm_world false) eq_refl) as H.
  cbn zeta in H. destruct (Runtime_Close _) as [err w'].
  destruct H as (H & _). exact H.
Defined.

(** With the allocator bounded at 48 the code string is allocated and
    the file name is not. *)
Lemma EvalCode_allocation_failure_witness :
  snd (fst (@Realm_EvalCode (toy_oom 48) 0 "1" (toy_oom_world 48)))
  = Some "failed to allocate filename string"%string.
Proof.
  pose proof (@EvalCode_allocation_failure (toy_oom 48) (toy_oom_world 48)
                0 toy_realm "1" None eq_refl eq_refl) as H.
  cbn zeta in H. unfold Realm_EvalCode.
  assert (Ht : trace (snd (@Realm_EvalCodeWithOptions (toy_oom 48) 0 "1"
                             None (toy_oom_world 48)))
               = trace (toy_oom_world 48)
                   ++ [ECall (Registry.Malloc 16 2) 32;
                       EWrite 32 [x31; x00] true;
                       ECall (Registry.Malloc 16 5) 0;
                       ECall (Registry.Free 16 32) 0])
    by reflexivity.
  destruct (Realm_EvalCodeWithOptions _ _ _ _) as [[v err] w'].
  destruct H as (evs & Htr & Hall). cbn [fst snd] in *.
  rewrite Htr in Ht. apply app_inv_head in Ht. subst evs.
  destruct (Hall 16 5) as (_ & [[Hevs _] | (cp & ok & _ & _ & Herr)]).
  - apply list_elem_of_In. cbn. tauto.
  - discriminate Hevs.
  - exact Herr.
Defined.

(** The evaluation of ["1"] without exception: the owned Value of the
    handle 64. *)
Lemma EvalCode_success_witness :
  fst (@Realm_EvalCode (toy false) 0 "1" (toy_realm_world false))
  = ({| Value.realm := Some 0%nat; Value.ptr := 64;
        Value.borrowed := false |}, None).
Proof.
  pose proof (@EvalCode_success (toy false) (toy_realm_world false)
                0 toy_realm "1" None eq_refl eq_refl) as H.
  cbn zeta in H. unfold Realm_EvalCode.
  assert (Ht : trace (snd (@Realm_EvalCodeWithOptions (toy false) 0 "1"
                             None (toy_realm_world false)))
               = trace (toy_realm_world false)
                   ++ [ECall (Registry.Malloc 16 2) 32;
                       EWrite 32 [x31; x00] true;
                       ECall (Registry.Malloc 16 5) 48;
                       EWrite 48 [x65; x76; x61; x6c; x00] true;
                       ECall (Registry.Eval 16 32 1 48 1 0) 64;
                       ECall (Registry.GetLastError 16 64) 0;
                       ECall (Registry.Free 16 48) 0;
                       ECall (Registry.Free 16 32) 0])
    by reflexivity.
  destruct (Realm_EvalCodeWithOptions _ _ _ _) as [[v err] w'].
  destruct H as (evs & Htr & Hall). cbn [fst snd] in *.
  rewrite Htr in Ht. apply app_inv_head in Ht. subst evs.
  destruct (Hall 64) as (cp & fp & ok1 & ok2 & _ & _ & _ & -> & ->).
  - apply list_elem_of_In. cbn. tauto.
  - reflexivity.
Defined.

Lemma Value_String_frees_the_CString_witness :
  let run := @Value_String (toy false) toy_value (toy_realm_world false) in
  heap (snd run) = heap (toy_realm_world false) /\
  exists evs,
    trace (snd run) = trace (toy_realm_world false) ++ evs /\
    no_leak evs [].
Proof.
  cbn zeta.
  pose proof (@Value_String_frees_the_CString (toy false)
                (toy_realm_world false) toy_value 0 toy_realm
                eq_refl eq_refl) as H.
  cbn zeta in H. destruct (Value_String _ _) as [s w'].
  destruct H as (sp & ok & evs & Htr & _ & _ & Hleak & Hheap & _).
  cbn [snd]. split; [exact Hheap|]. now exists evs.
Defined.

(** The string "hi" allocated at offset 16 of the 256-byte buffer. *)
Lemma AllocateString_then_read_witness :
  let run := @AllocateString (toy false) 16 "hi" (toy_world false) in
  fst (ReadNullTerminatedString (fst (fst run)) (snd run)) = "hi"%string.
Proof.
  cbn zeta.
  pose proof (@AllocateString_then_read (toy false) (toy_world false)
                16 "hi") as H.
  assert (A1 : fst (fst (@AllocateString (toy false) 16 "hi"
                           (toy_world false))) = 16) by reflexivity.
  assert (A2 : len (memory (snd (@AllocateString (toy false) 16 "hi"
                                   (toy_world false)))) = 256)
    by reflexivity.
  destruct (AllocateString _ _ _) as [[ptr n] w1]. cbn [fst snd] in *.
  subst ptr. destruct H as [_ H].
  destruct H as (_ & ok & _ & Hrd); [discriminate|].
  apply Hrd.
  - rewrite A2. reflexivity.
  - rewrite A2. vm_compute. discriminate.
  - repeat constructor; discriminate.
Defined.

(** With the allocator bounded at 32 the string is not allocated, and
    [NewString] runs all the same. *)
Lemma NewString_allocation_unchecked_witness :
  let run := @Realm_NewString (toy_oom 32) 0 "hi" (toy_oom_world 32) in
  exists evs,
    trace (snd run) = trace (toy_oom_world 32) ++ evs /\
    engine_calls evs = [Registry.Malloc 16 3; Registry.NewString 16 0] /\
    no_leak evs (handed_over (fst run)).
Proof.
  cbn zeta.
  pose proof (@NewString_allocation_unchecked (toy_oom 32)
                (toy_oom_world 32) 0 toy_realm "hi" eq_refl) as H.
  cbn zeta in H.
  assert (Ht : trace (snd (@Realm_NewString (toy_oom 32) 0 "hi"
                             (toy_oom_world 32)))
               = trace (toy_oom_world 32)
                   ++ [ECall (Registry.Malloc 16 3) 0;
                       ECall (Registry.NewString 16 0) 32])
    by reflexivity.
  destruct (Realm_NewString _ _ _) as [v w'].
  destruct H as (sp & evs & Htr & _ & _ & _ & _ & _ & Hleak).
  cbn [fst snd] in *. exists evs. split; [exact Htr|].
  split; [|exact Hleak].
  rewrite Htr in Ht. apply app_inv_head in Ht. now subst evs.
Defined.

(** Closing the Runtime that tracks the live realm of handle 16 frees
    that context. *)
Lemma Runtime_Close_engine_calls_witness :
  exists evs,
    trace (snd (@Runtime_Close (toy false) (toy_realm_world false)))
    = trace (toy_realm_world false) ++ evs /\
    Registry.FreeContext 16 ∈ engine_calls evs /\
    Registry.FreeRuntime 8 ∈ engine_calls evs.
Proof.
  destruct (@Runtime_Close_engine_calls (toy false) (toy_realm_world false)
              eq_refl) as (evs & Htr & Hc).
  exists evs. split; [exact Htr|]. split.
  - apply Hc. left. exists 16, 0%nat, toy_realm.
    repeat split; try reflexivity; discriminate.
  - apply Hc. right. split; [discriminate | reflexivity].
Defined.
